(** * models/experimental.py: checkpoint loading, ensembles and two layers

    A shallow embedding of [src/models/experimental.py].  Python objects are
    modelled as far as the code inspects them: exceptions are the [Raise] side
    of a result type, attribute dictionaries are finite maps from attribute
    names, module objects are trees of such dictionaries, and the calls into
    the torch runtime and into the other packages of the repository are
    section variables. *)

From Stdlib Require Import ZArith QArith Qround List String Ascii Bool Lia.
From stdpp Require Import base gmap list strings.

Set Default Proof Using "Type".
Set Warnings "-register-all".

(** ** Exceptions and results *)

Inductive exn :=
  | ModuleNotFoundError (name : string)
  | NameError (name : string)
  | AttributeError (attr : string)
  | KeyError
  | IndexError
  | ValueError
  | TypeError
  | RuntimeError
  | AssertionError.

Inductive result (A : Type) :=
  | Ok (a : A)
  | Raise (e : exn).
Arguments Ok {A} a.
Arguments Raise {A} e.

Definition rbind {A B} (r : result A) (k : A -> result B) : result B :=
  match r with
  | Ok a => k a
  | Raise e => Raise e
  end.

Declare Scope res_scope.
Delimit Scope res_scope with res.
Notation "x <- e ;; k" := (rbind e (fun x => k))
  (at level 100, e at next level, right associativity) : res_scope.

Definition returns {A} (r : result A) : bool :=
  match r with Ok _ => true | Raise _ => false end.

Open Scope res_scope.

(** A list comprehension whose element expression may raise. *)
Section Rmap.
Context {A B : Type} (f : A -> result B).

Fixpoint rmap (l : list A) : result (list B) :=
  match l with
  | [] => Ok []
  | x :: r =>
      y <- f x ;;
      ys <- rmap r ;;
      Ok (y :: ys)
  end.
End Rmap.

(** A [for] loop that threads a value through its body. *)
Section ForEach.
Context {A S : Type} (body : A -> S -> result S).

Fixpoint for_each (l : list A) (s : S) : result S :=
  match l with
  | [] => Ok s
  | x :: r =>
      s' <- body x s ;;
      for_each r s'
  end.
End ForEach.

(** [l[i]] for [0 <= i] *)
Definition getitem {A} (l : list A) (i : nat) : result A :=
  match l !! i with
  | Some a => Ok a
  | None => Raise IndexError
  end.

(** ** Python values *)

(** The classes the file names, the metaclass [type] and the builtin classes
    [isinstance] is asked about. *)
Inductive Class :=
  | Hardswish | LeakyReLU | ReLU | ReLU6 | SiLU | Upsample
  | ConvC | ModelC
  | Detect | Decoupled_Detect | Kpt_Detect | IKeypoint | ASFF_Detect
  | IDetect | Segment | IBin | IAuxDetect | V8_Detect | V8_Segment
  | SumC | MixConv2dC | EnsembleC
  | OtherModule (name : string)
  | TypeC | ListC | DictC | IntC | BoolC | StrC | TensorC | SetC
  | NoneTypeC | ObjectC.

Global Instance Class_eq_dec : EqDecision Class.
Proof. solve_decision. Defined.

Inductive key :=
  | KInt (z : Z)
  | KStr (s : string).

Global Instance key_eq_dec : EqDecision key.
Proof. solve_decision. Defined.

(** A tensor is kept as the list of its entries; the entries the code
    compares (strides) are integer valued, so they are kept in [Z]. *)
Inductive value :=
  | VNone
  | VBool (b : bool)
  | VInt (z : Z)
  | VStr (s : string)
  | VTensor (t : list Z)
  | VList (l : list value)
  | VDict (d : list (key * value))
  | VSet (l : list value)
  | VClass (c : Class)
  | VObj (id : positive).

(** [type(v)] *)
Definition type_of (v : value) : Class :=
  match v with
  | VNone => NoneTypeC
  | VBool _ => BoolC
  | VInt _ => IntC
  | VStr _ => StrC
  | VTensor _ => TensorC
  | VList _ => ListC
  | VDict _ => DictC
  | VSet _ => SetC
  | VClass _ => TypeC
  | VObj _ => ObjectC
  end.

(** The bases of a class.  [bool] derives from [int]; the metaclass and the
    other builtins derive from [object] only.  The file never applies
    [isinstance] to a module instance, so the hierarchy inside models.yolo
    plays no role and a module class is listed with itself alone. *)
Definition mro (c : Class) : list Class :=
  match c with
  | BoolC => [BoolC; IntC; ObjectC]
  | ObjectC => [ObjectC]
  | _ => [c; ObjectC]
  end.

Definition issubclass (c d : Class) : bool := bool_decide (d ∈ mro c).

(** [isinstance(v, (c1, ..., cn))] *)
Definition isinstance (v : value) (cs : list Class) : bool :=
  existsb (issubclass (type_of v)) cs.

(** ** Dictionaries, in insertion order *)

Section Dict.
Context {K V : Type} `{EqDecision K}.

Fixpoint dict_get (k : K) (d : list (K * V)) : option V :=
  match d with
  | [] => None
  | (k', v) :: r => if decide (k = k') then Some v else dict_get k r
  end.

(** [d[k] = v]: an existing key keeps its place. *)
Fixpoint dict_set (k : K) (v : V) (d : list (K * V)) : list (K * V) :=
  match d with
  | [] => [(k, v)]
  | (k', v') :: r =>
      if decide (k = k') then (k, v) :: r else (k', v') :: dict_set k v r
  end.

Definition dict_keys (d : list (K * V)) : list K := map fst d.
End Dict.

(** [dict(enumerate(l))] *)
Fixpoint enumerate_from (i : Z) (l : list value) : list (key * value) :=
  match l with
  | [] => []
  | v :: r => (KInt i, v) :: enumerate_from (i + 1) r
  end.

Definition enumerate (l : list value) : list (key * value) := enumerate_from 0 l.

(** [max] of a sequence of ints; [None] stands for the ValueError of an empty
    sequence. *)
Definition py_max (l : list Z) : option Z :=
  match l with
  | [] => None
  | x :: r => Some (fold_left Z.max r x)
  end.

(** ** Name lookup *)

(** A scope binds names to objects: a class, or some other object (an
    imported module, a function, the logger) kept by its identity. *)
Definition scope := list (string * value).

(** The names bound at the top level of models/experimental.py: its imports,
    the logger, and its own functions and classes. *)
Definition module_globals : scope :=
  [ ("math", VObj 1); ("np", VObj 2); ("torch", VObj 3); ("nn", VObj 4);
    ("Conv", VClass ConvC); ("attempt_download", VObj 5);
    ("check_requirements", VObj 6); ("check_yaml", VObj 7);
    ("logging", VObj 8); ("LOGGER", VObj 9);
    ("check_class_names", VObj 10); ("Sum", VClass SumC);
    ("MixConv2d", VClass MixConv2dC); ("Ensemble", VClass EnsembleC);
    ("torch_safe_load", VObj 11); ("attempt_load", VObj 12);
    ("attempt_load_one_weight", VObj 13);
    ("attempt_load_weights", VObj 14) ]%string.

(** A name is looked up in the function's locals, then in the module
    globals; none of the names looked up below is a builtin. *)
Definition lookup_name (locals : scope) (x : string) : result value :=
  match dict_get x locals with
  | Some b => Ok b
  | None =>
      match dict_get x module_globals with
      | Some b => Ok b
      | None => Raise (NameError x)
      end
  end.

(** ** check_class_names *)

Module ClassNames.
Section ClassNames.
Local Open Scope Z_scope.
Local Open Scope res_scope.

(** Python's [int(s)] on a str; [None] stands for its ValueError. *)
Variable py_int : string -> option Z.

Definition int_of_key (k : key) : result Z :=
  match k with
  | KInt z => Ok z
  | KStr s => match py_int s with Some z => Ok z | None => Raise ValueError end
  end.

(** [all(isinstance(k, int) for k in names.keys())], with the keys. *)
Fixpoint all_int_keys (d : list (key * value)) : option (list (Z * value)) :=
  match d with
  | [] => Some []
  | (KInt z, v) :: r => option_map (cons (z, v)) (all_int_keys r)
  | (KStr _, _) :: _ => None
  end.

(** [{int(k): v for k, v in names.items()}] *)
Fixpoint int_keys_from (acc : list (Z * value)) (d : list (key * value))
  : result (list (Z * value)) :=
  match d with
  | [] => Ok acc
  | (k, v) :: r =>
      (z <- int_of_key k ;;
       int_keys_from (dict_set z v acc) r)%res
  end.

Definition int_keys (d : list (key * value)) : result (list (Z * value)) :=
  int_keys_from [] d.

Definition to_dict (d : list (Z * value)) : value :=
  VDict (map (fun kv => (KInt (fst kv), snd kv)) d).

(** [isinstance(v, str) and v.startswith('n0')] *)
Definition imagenet_code (v : value) : bool :=
  match v with
  | VStr s => String.prefix "n0" s
  | _ => false
  end.

(** The ImageNet table [map[v]] the last branch would read from
    datasets/ImageNet.yaml. *)
Variable human_name : value -> value.

(** Its parameter is the only local bound when the last branch is
    reached. *)
Definition check_class_names_locals (names : value) : scope :=
  [ ("names", names) ]%string.

Definition check_class_names (names : value) : result value :=
  let names :=
    if isinstance names [ListC]
    then match names with VList l => VDict (enumerate l) | _ => names end
    else names in
  if isinstance names [DictC] then
    match names with
    | VDict d =>
        (d <- match all_int_keys d with
              | Some d' => Ok d'
              | None => int_keys d
              end ;;
         let n := Z.of_nat (length d) in
         match py_max (dict_keys d) with
         | None => Raise ValueError
         | Some mx =>
             if n <=? mx then Raise KeyError
             else
               match dict_get 0 d with
               | None => Raise KeyError
               | Some v0 =>
                   if imagenet_code v0 then
                     (_ <- lookup_name (check_class_names_locals names) "yaml_load" ;;
                      _ <- lookup_name (check_class_names_locals names) "ROOT" ;;
                      Ok (to_dict (map (fun kv => (fst kv, human_name (snd kv))) d)))
                   else Ok (to_dict d)
               end
         end)%res
    | _ => Ok names
    end
  else Ok names.

End ClassNames.
End ClassNames.

(** A decimal reading of [int(s)], enough to run the examples: an optional
    minus sign followed by digits. *)
Module Decimal.
Local Open Scope Z_scope.

Definition digit (c : Ascii.ascii) : option Z :=
  let n := Z.of_N (Ascii.N_of_ascii c) in
  if (48 <=? n) && (n <=? 57) then Some (n - 48) else None.

Fixpoint digits (acc : Z) (s : string) : option Z :=
  match s with
  | EmptyString => Some acc
  | String c r =>
      match digit c with
      | Some d => digits (10 * acc + d) r
      | None => None
      end
  end.

Definition py_int (s : string) : option Z :=
  match s with
  | EmptyString => None
  | String "-"%char (String c r) => option_map Z.opp (digits 0 (String c r))
  | _ => digits 0 s
  end.
End Decimal.

(** ** class Sum *)

Module Sum.
Section Sum.
(** The tensors of the torch runtime and the operations the layer uses on
    them: [y + z], [y * z] (broadcasting), [torch.sigmoid], the Python
    scalar [2], and entry [j - 1] of [-torch.arange(1.0, n) / 2]. *)
Variable tensor : Type.
Variable add : tensor -> tensor -> tensor.
Variable mul : tensor -> tensor -> tensor.
Variable sigmoid : tensor -> tensor.
Variable two : tensor.
Variable initial_weight : nat -> tensor.

(** [self.iter] is [range(iter)]; [self.w] is kept by its entries and is
    read only when [self.weight] holds. *)
Record t := { weight : bool; iter : nat; w : list tensor }.

Definition init (n : Z) (weight : bool) : t :=
  {| weight := weight;
     iter := Z.to_nat (n - 1);
     w := if weight then map initial_weight (seq 1 (Z.to_nat (n - 1))) else [] |}.

Definition forward (self : t) (x : list tensor) : result tensor :=
  y <- getitem x 0 ;;
  if weight self then
    let w := map (fun wi => mul (sigmoid wi) two) (w self) in
    for_each (fun i y =>
                xi <- getitem x (i + 1) ;;
                wi <- getitem w i ;;
                Ok (add y (mul xi wi)))
             (seq 0 (iter self)) y
  else
    for_each (fun i y =>
                xi <- getitem x (i + 1) ;;
                Ok (add y xi))
             (seq 0 (iter self)) y.

(** The sums in the words of the specification:
    [x0 + x1 + ... + x(n-1)] and
    [x0 + sum over i of x(i+1) * (sigmoid(w i) * 2)], added from the left. *)
Definition plain_sum (x0 : tensor) (xs : list tensor) : tensor :=
  fold_left add xs x0.

Definition weighted_sum (x0 : tensor) (xs ws : list tensor) : tensor :=
  fold_left (fun y xw => add y (mul (fst xw) (mul (sigmoid (snd xw)) two)))
            (combine xs ws) x0.
End Sum.
Arguments weight {tensor} _.
Arguments iter {tensor} _.
Arguments w {tensor} _.
Arguments init {tensor} _ _ _.
Arguments forward {tensor} _ _ _ _ _ _.
Arguments plain_sum {tensor} _ _ _.
Arguments weighted_sum {tensor} _ _ _ _ _ _ _.
End Sum.

(** ** class MixConv2d *)

Module MixConv2d.
Local Open Scope Z_scope.

(** *** Binary floating point, on exact rationals

    [torch.linspace] computes in float32 and Python in float64.  A float is
    kept as the rational it denotes; [float_round prec] rounds a rational
    to the nearest float with a [prec]-bit significand, ties to even.  The
    exponent range is not modelled: the values here are far from it. *)

(** Nearest integer to [num / den], ties to even, for [0 < den]. *)
Definition round_half_even (num den : Z) : Z :=
  let q := num / den in
  let r := num mod den in
  if 2 * r <? den then q
  else if den <? 2 * r then q + 1
  else if Z.even q then q else q + 1.

(** [floor (log2 (a / b))] for positive [a], [b]. *)
Definition log2_ratio (a b : Z) : Z :=
  let e := Z.log2 a - Z.log2 b in
  if a * 2 ^ Z.log2 b <? b * 2 ^ Z.log2 a then e - 1 else e.

Definition pow2 (q : Z) : Q :=
  if 0 <=? q then inject_Z (2 ^ q) else 1 # Z.to_pos (2 ^ (- q)).

Definition float_round_pos (prec : Z) (a b : Z) : Q :=
  let q := log2_ratio a b - prec + 1 in
  let m := if 0 <=? q then round_half_even a (b * 2 ^ q)
           else round_half_even (a * 2 ^ (- q)) b in
  Qred (inject_Z m * pow2 q).

Definition float_round (prec : Z) (x : Q) : Q :=
  match Qnum x with
  | Z0 => 0
  | Zpos a => float_round_pos prec (Zpos a) (Zpos (Qden x))
  | Zneg a => - float_round_pos prec (Zpos a) (Zpos (Qden x))
  end.

Definition float32 : Q -> Q := float_round 24.
Definition float64 : Q -> Q := float_round 53.

(** [torch.linspace(start, end, steps)] in the default dtype float32:
    [steps] values from [start] to [end] inclusive, spaced by
    [(end - start) / (steps - 1)]; a negative [steps] is an error.  The two
    end points are the float32 values of [start] and [end] themselves. *)
Definition linspace (start end_ : Q) (steps : Z) : result (list Q) :=
  if steps <? 0 then Raise RuntimeError
  else
    let start := float32 start in
    let end_ := float32 end_ in
    let step := float32 ((end_ - start) / inject_Z (steps - 1)) in
    Ok (map (fun i : nat =>
               let i := Z.of_nat i in
               if i =? 0 then start
               else if i =? steps - 1 then end_
               else float32 (start + float32 (step * inject_Z i)))
            (seq 0 (Z.to_nat steps))).

(** [(i == g).sum()] *)
Definition count_eq (g : Z) (i : list Z) : Z :=
  Z.of_nat (length (List.filter (Z.eqb g) i)).

(** The branch [equal_ch=True]:
    [i = torch.linspace(0, n - 1E-6, c2).floor()] and
    [c_ = [(i == g).sum() for g in range(n)]]. *)
Definition equal_ch_channels (n : nat) (c2 : Z) : result (list Z) :=
  pts <- linspace 0 (float64 (inject_Z (Z.of_nat n) - float64 (1 # 1000000))) c2 ;;
  let i := map Qfloor pts in
  Ok (map (fun g : nat => count_eq (Z.of_nat g) i) (seq 0 n)).

(** [nn.Conv2d(in, out, kernel, stride, padding, groups=..., bias=...)],
    kept by its arguments. *)
Record Conv2d := {
  in_channels : Z;
  out_channels : Z;
  kernel_size : Z;
  stride : Z;
  padding : Z;
  groups : Z;
  bias : bool
}.

Record t := { m : list Conv2d; bn : Z; act : Class }.

Section Init.
(** The branch [equal_ch=False] solves a least-squares system with numpy
    in floating point; its rounded solution, read through [int], is a
    parameter. *)
Variable lstsq_channels : Z -> list Z -> list Z.

Definition init (c1 c2 : Z) (k : list Z) (s : Z) (equal_ch : bool) : result t :=
  let n := length k in
  c_ <- (if equal_ch then equal_ch_channels n c2
         else Ok (lstsq_channels c2 k)) ;;
  Ok {| m := map (fun kc : Z * Z =>
                    let (k, c_) := kc in
                    {| in_channels := c1; out_channels := c_; kernel_size := k;
                       stride := s; padding := k / 2;
                       groups := Z.gcd c1 c_; bias := false |})
                 (combine k c_);
        bn := c2;
        act := SiLU |}.
End Init.

(** The channels the concatenation [torch.cat([m(x) for m in self.m], 1)]
    has: each member contributes its out_channels. *)
Definition cat_channels (self : t) : Z :=
  fold_right Z.add 0 (map out_channels (m self)).
End MixConv2d.

(** ** Module objects

    An [nn.Module] instance is kept by its class, its plain attributes and
    its child modules.  Parameters and buffers are not modelled, so
    [.to(device)] and [.float()], which only convert them and return the
    module, leave the model as it is.  The modules of one checkpoint form a
    tree: [torch.load] builds fresh objects, and [modules()] visits an
    object once. *)

Inductive nn_module :=
  | NN (cls : Class) (attrs : gmap string value) (children : list nn_module).

Definition cls (m : nn_module) : Class := match m with NN c _ _ => c end.
Definition attrs (m : nn_module) : gmap string value := match m with NN _ a _ => a end.
Definition children (m : nn_module) : list nn_module := match m with NN _ _ ch => ch end.

Definition hasattr (a : gmap string value) (k : string) : bool :=
  bool_decide (is_Some (a !! k)).

Definition getattr (a : gmap string value) (k : string) : result value :=
  match a !! k with
  | Some v => Ok v
  | None => Raise (AttributeError k)
  end.

Definition setattr (m : nn_module) (k : string) (v : value) : nn_module :=
  match m with NN c a ch => NN c (<[k := v]> a) ch end.

(** [nn.Module.eval()]: [training = False] on the module and on every
    descendant; returns the module. *)
Fixpoint eval_ (m : nn_module) : nn_module :=
  match m with
  | NN c a ch => NN c (<["training" := VBool false]> a) (map eval_ ch)
  end.

(** [for m in model.modules(): body]: the module itself first, then its
    descendants in order.  The bodies in this file assign attributes of [m]
    only, so a body is a function of the class and the attributes. *)
Fixpoint for_modules (body : Class -> gmap string value -> result (gmap string value))
    (m : nn_module) : result nn_module :=
  match m with
  | NN c a ch =>
      a' <- body c a ;;
      ch' <- rmap (for_modules body) ch ;;
      Ok (NN c a' ch')
  end.

(** [model.modules()] as a list. *)
Fixpoint modules (m : nn_module) : list nn_module :=
  match m with
  | NN c a ch => m :: flat_map modules ch
  end.

(** [t in (c1, ..., cn)] for a class [t]: identity with one of the entries. *)
Definition class_in (t : Class) (tup : list value) : bool :=
  existsb (fun v => match v with VClass c => bool_decide (t = c) | _ => false end) tup.

(** The classes of a tuple handed to [isinstance]; anything else in it is
    a TypeError. *)
Definition classes_of (tup : list value) : result (list Class) :=
  rmap (fun v => match v with VClass c => Ok c | _ => Raise TypeError end) tup.

(** An entry of a tuple of classes as the code writes it: an attribute of
    the imported [nn], or a bare name. *)
Inductive class_expr :=
  | NnAttr (c : Class)
  | Name (x : string).

Definition eval_class (locals : scope) (e : class_expr) : result value :=
  match e with
  | NnAttr c => _ <- lookup_name locals "nn" ;; Ok (VClass c)
  | Name x => lookup_name locals x
  end.

Definition eval_tuple (locals : scope) (es : list class_expr) : result (list value) :=
  rmap (eval_class locals) es.

(** [==] between attribute values: numbers by value, anything else by
    identity of the written value. *)
Definition py_eq (a b : value) : bool :=
  match a, b with
  | VInt x, VInt y => (x =? y)%Z
  | VInt x, VBool y => (x =? Z.b2z y)%Z
  | VBool x, VInt y => (Z.b2z x =? y)%Z
  | VBool x, VBool y => Bool.eqb x y
  | VStr x, VStr y => String.eqb x y
  | VNone, VNone => true
  | VObj x, VObj y => Pos.eqb x y
  | VClass x, VClass y => bool_decide (x = y)
  | _, _ => false
  end.

(** [all(f(m) for m in l)]: stops at the first false entry. *)
Section Rall.
Context {A : Type} (f : A -> result bool).

Fixpoint rall (l : list A) : result bool :=
  match l with
  | [] => Ok true
  | x :: r =>
      b <- f x ;;
      if b then rall r else Ok false
  end.
End Rall.

(** [t.max()] of a tensor: its largest entry; an empty tensor is a
    RuntimeError, anything but a tensor has no such method. *)
Definition tensor_max (v : value) : result Z :=
  match v with
  | VTensor t => match py_max t with Some x => Ok x | None => Raise RuntimeError end
  | _ => Raise (AttributeError "max")
  end.

(** [torch.argmax]: the index of the first largest entry. *)
Fixpoint argmax_from (best : Z) (ibest i : nat) (l : list Z) : nat :=
  match l with
  | [] => ibest
  | x :: r => if (best <? x)%Z then argmax_from x i (S i) r
              else argmax_from best ibest (S i) r
  end.

Definition argmax (l : list Z) : result nat :=
  match l with
  | [] => Raise RuntimeError
  | x :: r => Ok (argmax_from x 0%nat 1%nat r)
  end.

(** ** class Ensemble *)

Module Ensemble.
(** [Ensemble()], an empty [nn.ModuleList]. *)
Definition init : nn_module := NN EnsembleC ∅ [].

(** [nn.ModuleList.append] *)
Definition append (self m : nn_module) : nn_module :=
  match self with NN c a ch => NN c a (ch ++ [m]) end.

Section Forward.
(** The tensors of the runtime, a call [module(x, augment, profile,
    visualize)] of a member, which returns a sequence of outputs, and
    [torch.cat(ys, dim)], which raises on an empty list and on tensors
    whose shapes do not fit. *)
Variable tensor : Type.
Variable call : nn_module -> tensor -> bool -> bool -> bool -> result (list tensor).
Variable cat : list tensor -> Z -> result tensor.

Definition forward (self : nn_module) (x : tensor)
    (augment profile visualize : bool) : result (tensor * value) :=
  y <- rmap (fun module =>
               out <- call module x augment profile visualize ;;
               getitem out 0)
            (children self) ;;
  y <- cat y 1 ;;
  Ok (y, VNone).
End Forward.
End Ensemble.

(** ** Loading checkpoints *)

(** What [torch.load] returns for a checkpoint file: a dict with the entries
    ['ema'], ['model'] and ['train_args'].  [ema] is [None] when the entry is
    missing or holds [None]; the other two are [None] when missing. *)
Record checkpoint := {
  ema : option nn_module;
  model : option nn_module;
  train_args : option (list (key * value))
}.

(** The [weights] argument: one path, or a list of paths. *)
Inductive weights_arg :=
  | Path (w : string)
  | Paths (l : list string).

(** [weights if isinstance(weights, list) else [weights]] *)
Definition weights_list (weights : weights_arg) : list string :=
  match weights with
  | Path w => [w]
  | Paths l => l
  end.

Definition weights_value (weights : weights_arg) : value :=
  match weights with
  | Path w => VStr w
  | Paths l => VList (map VStr l)
  end.

(** What the loader does to the outside, in order. *)
Inductive event :=
  | Download (weight : string)
  | PrintFile (file : string)
  | TorchLoad (file : string)
  | Warning (weight name : string)
  | CheckRequirements (name : string)
  | PrintEnsemble (weights : weights_arg).

Module Load.
Section Load.
(** The outside world (file system, installed packages) and the three
    collaborators from utils and torch.  [attempt_download] returns the
    local file and may fetch it; [torch.load] reads the world and may
    raise, which is what [torch_safe_load] handles; [check_requirements]
    installs a package.  The two helpers of utils are taken to return: the
    file has no handler around them, so an exception of theirs would leave
    [torch_safe_load] at once. *)
Variable world : Type.
Variable attempt_download : string -> world -> string * world.
Variable torch_load : string -> world -> result checkpoint.
Variable check_requirements : string -> world -> world.

(** [m.fuse()] of models.yolo: [None] when the object has no such
    method. *)
Variable fuse_method : nn_module -> option nn_module.

(** [DEFAULT_CFG_DICT] and [DEFAULT_CFG_KEYS] of yolo.utils. *)
Variable DEFAULT_CFG_DICT : list (key * value).
Variable DEFAULT_CFG_KEYS : list string.

Record state := { the_world : world; trace : list event }.

(** Computations that change the world, log events and may raise. *)
Definition io (A : Type) : Type := state -> result A * state.

Definition ret {A} (a : A) : io A := fun st => (Ok a, st).
Definition throw {A} (e : exn) : io A := fun st => (Raise e, st).
Definition lift {A} (r : result A) : io A := fun st => (r, st).

Definition bind {A B} (c : io A) (k : A -> io B) : io B :=
  fun st =>
    match c st with
    | (Ok a, st') => k a st'
    | (Raise e, st') => (Raise e, st')
    end.

(** [try: c  except ... as e: h e] *)
Definition try_except {A} (c : io A) (h : exn -> io A) : io A :=
  fun st =>
    match c st with
    | (Ok a, st') => (Ok a, st')
    | (Raise e, st') => h e st'
    end.

Definition emit (ev : event) : io unit :=
  fun st => (Ok tt, {| the_world := the_world st; trace := trace st ++ [ev] |}).

Notation "x <~ c ;; k" := (bind c (fun x => k))
  (at level 100, c at next level, right associativity).

Definition call_attempt_download (weight : string) : io string :=
  fun st =>
    let (file, w') := attempt_download weight (the_world st) in
    (Ok file, {| the_world := w'; trace := trace st ++ [Download weight] |}).

Definition call_torch_load (file : string) : io checkpoint :=
  fun st =>
    (torch_load file (the_world st),
     {| the_world := the_world st; trace := trace st ++ [TorchLoad file] |}).

Definition call_check_requirements (name : string) : io unit :=
  fun st =>
    (Ok tt, {| the_world := check_requirements name (the_world st);
               trace := trace st ++ [CheckRequirements name] |}).

Definition torch_safe_load (weight : string) : io checkpoint :=
  file <~ call_attempt_download weight ;;
  _ <~ emit (PrintFile file) ;;
  try_except (call_torch_load file)
    (fun e =>
       match e with
       | ModuleNotFoundError name =>
           _ <~ (if String.eqb name "omegaconf"
                 then emit (Warning weight name) else ret tt) ;;
           _ <~ call_check_requirements name ;;
           call_torch_load file
       | _ => throw e
       end).

(** What the events say: the number of calls of [torch.load], and the
    names handed to [check_requirements]. *)
Definition loads (t : list event) : nat :=
  length (List.filter (fun ev => match ev with TorchLoad _ => true | _ => false end) t).

Definition required (t : list event) : list string :=
  flat_map (fun ev => match ev with CheckRequirements name => [name] | _ => [] end) t.

(** [(ckpt.get('ema') or ckpt['model']).to(device).float()]; a module object
    of models.yolo is true. *)
Definition checkpoint_model (ckpt : checkpoint) : result nn_module :=
  match ema ckpt with
  | Some m => Ok m
  | None =>
      match model ckpt with
      | Some m => Ok m
      | None => Raise KeyError
      end
  end.

(** [if not hasattr(ckpt, 'stride'): ckpt.stride = torch.tensor([32.])] *)
Definition default_stride (ckpt : nn_module) : nn_module :=
  if hasattr (attrs ckpt) "stride" then ckpt
  else setattr ckpt "stride" (VTensor [32%Z]).

(** *** attempt_load *)

(** The names [attempt_load] binds before its loop over the modules: its
    parameters, the classes it imports from models.yolo, and [model]. *)
Definition attempt_load_locals : scope :=
  [ ("weights", VObj 20); ("device", VObj 21); ("inplace", VObj 22);
    ("fuse", VObj 23);
    ("Detect", VClass Detect); ("Model", VClass ModelC);
    ("Decoupled_Detect", VClass Decoupled_Detect);
    ("ASFF_Detect", VClass ASFF_Detect); ("IDetect", VClass IDetect);
    ("IAuxDetect", VClass IAuxDetect); ("IBin", VClass IBin);
    ("Kpt_Detect", VClass Kpt_Detect); ("IKeypoint", VClass IKeypoint);
    ("Segment", VClass Segment); ("V8_Detect", VClass V8_Detect);
    ("V8_Segment", VClass V8_Segment); ("model", VObj 24) ]%string.

(** The body of the first loop after the model is taken out of the
    checkpoint: the value appended to [model]. *)
Definition attempt_load_prepare (weights : weights_arg) (fuse : bool)
    (ckpt : nn_module) : result nn_module :=
  let ckpt := setattr ckpt "pt_path" (weights_value weights) in
  let ckpt := default_stride ckpt in
  if fuse then
    match fuse_method ckpt with
    | Some fused => Ok (eval_ fused)
    | None => Raise (AttributeError "fuse")
    end
  else Ok (eval_ ckpt).

Fixpoint attempt_load_members (weights : weights_arg) (fuse : bool)
    (model : nn_module) (ws : list string) : io nn_module :=
  match ws with
  | [] => ret model
  | w :: r =>
      ckpt <~ torch_safe_load w ;;
      ckpt <~ lift (checkpoint_model ckpt) ;;
      m <~ lift (attempt_load_prepare weights fuse ckpt) ;;
      attempt_load_members weights fuse (Ensemble.append model m) r
  end.

(** The models as deserialized, before [attempt_load] touches them: what
    [(ckpt.get('ema') or ckpt['model']).to(device).float()] yields for
    each weight in turn. *)
Fixpoint deserialized (ws : list string) : io (list nn_module) :=
  match ws with
  | [] => ret []
  | w :: r =>
      ckpt <~ torch_safe_load w ;;
      ckpt <~ lift (checkpoint_model ckpt) ;;
      rest <~ deserialized r ;;
      ret (ckpt :: rest)
  end.

(** The checkpoints as read, before anything is taken out of them:
    [torch_safe_load(w)] for each weight in turn. *)
Fixpoint checkpoints (ws : list string) : io (list checkpoint) :=
  match ws with
  | [] => ret []
  | w :: r =>
      ckpt <~ torch_safe_load w ;;
      rest <~ checkpoints r ;;
      ret (ckpt :: rest)
  end.

(** The body of the loop "Compatibility updates" for one module [m] of
    class [t] with attributes [a]. *)
Definition attempt_load_update (inplace : value) (t : Class)
    (a : gmap string value) : result (gmap string value) :=
  let locals := attempt_load_locals in
  acts <- eval_tuple locals
            [NnAttr Hardswish; NnAttr LeakyReLU; NnAttr ReLU; NnAttr ReLU6;
             NnAttr SiLU; Name "Model"; Name "V8_Detect"; Name "V8_Segment"] ;;
  if class_in t acts then
    let a := <["inplace" := inplace]> a in
    heads <- eval_tuple locals
               [Name "Detect"; Name "Decoupled_Detect"; Name "Kpt_Detect";
                Name "IKeypoint"; Name "ASFF_Detect"; Name "IDetect";
                Name "Segment"; Name "IBin"; Name "IAuxDetect";
                Name "Segment"; Name "IBin"; Name "IAuxDetect"] ;;
    heads <- classes_of heads ;;
    if isinstance (VClass t) heads then
      grid <- getattr a "anchor_grid" ;;
      if negb (isinstance grid [ListC]) then
        let a := delete "anchor_grid" a in
        nl <- getattr a "nl" ;;
        match nl with
        | VInt nl =>
            Ok (<["anchor_grid" := VList (repeat (VTensor [0%Z]) (Z.to_nat nl))]> a)
        | _ => Raise TypeError
        end
      else Ok a
    else Ok a
  else
    conv <- lookup_name locals "Conv" ;;
    if class_in t [conv] then
      Ok (<["_non_persistent_buffers_set" := VSet []]> a)
    else if bool_decide (t = Upsample) && negb (hasattr a "recompute_scale_factor") then
      Ok (<["recompute_scale_factor" := VNone]> a)
    else Ok a.

(** How the statements below speak of a loaded model: its class count
    [m.nc], its largest stride entry [m.stride.max()], and what the last
    lines of [attempt_load] read from it (names, an int [nc], yaml and a
    non-empty stride tensor). *)
Definition nc_of (m : nn_module) : Z :=
  match attrs m !! "nc" with
  | Some (VInt n) => n
  | _ => 0%Z
  end.

Definition stride_max (m : nn_module) : Z :=
  match attrs m !! "stride" with
  | Some (VTensor (x :: t)) => fold_left Z.max t x
  | _ => 0%Z
  end.

Definition detection_model (m : nn_module) : Prop :=
  is_Some (attrs m !! "names") /\
  attrs m !! "nc" = Some (VInt (nc_of m)) /\
  is_Some (attrs m !! "yaml") /\
  exists x t, attrs m !! "stride" = Some (VTensor (x :: t)).

(** From [if len(model) == 1] to the end of [attempt_load]. *)
Definition ensemble_attrs (model : nn_module) : result nn_module :=
  model <- for_each (fun k model =>
                       first <- getitem (children model) 0 ;;
                       v <- getattr (attrs first) k ;;
                       Ok (setattr model k v))
                    ["names"; "nc"; "yaml"]%string model ;;
  maxes <- rmap (fun m => s <- getattr (attrs m) "stride" ;; tensor_max s)
                (children model) ;;
  i <- argmax maxes ;;
  widest <- getitem (children model) i ;;
  s <- getattr (attrs widest) "stride" ;;
  let model := setattr model "stride" s in
  same <- rall (fun m =>
                  first <- getitem (children model) 0 ;;
                  nc0 <- getattr (attrs first) "nc" ;;
                  nc <- getattr (attrs m) "nc" ;;
                  Ok (py_eq nc0 nc))
               (children model) ;;
  if same then Ok model else Raise AssertionError.

Definition attempt_load_return (weights : weights_arg) (model : nn_module)
    : io nn_module :=
  if (length (children model) =? 1)%nat then
    lift (getitem (children model) (length (children model) - 1))
  else
    _ <~ emit (PrintEnsemble weights) ;;
    lift (ensemble_attrs model).

(** [attempt_load] up to and including the loop "Compatibility
    updates": the Ensemble that holds the loaded models. *)
Definition attempt_load_models (weights : weights_arg) (inplace : value)
    (fuse : bool) : io nn_module :=
  model <~ attempt_load_members weights fuse Ensemble.init (weights_list weights) ;;
  lift (for_modules (attempt_load_update inplace) model).

Definition attempt_load (weights : weights_arg) (device : value)
    (inplace : value) (fuse : bool) : io nn_module :=
  model <~ attempt_load_models weights inplace fuse ;;
  attempt_load_return weights model.

(** *** attempt_load_weights *)

(** The names [attempt_load_weights] binds before its loop over the
    modules: its parameters, the two names it imports from yolo.utils,
    and the variables of its first loop. *)
Definition attempt_load_weights_locals : scope :=
  [ ("weights", VObj 20); ("device", VObj 21); ("inplace", VObj 22);
    ("fuse", VObj 23);
    ("DEFAULT_CFG_DICT", VObj 30); ("DEFAULT_CFG_KEYS", VObj 31);
    ("model", VObj 24); ("w", VObj 32); ("ckpt", VObj 33);
    ("args", VObj 34) ]%string.

(** The body of the first loop, from the loaded checkpoint on. *)
Definition attempt_load_weights_member (weights : weights_arg) (fuse : bool)
    (ckpt : checkpoint) : result nn_module :=
  targs <- match train_args ckpt with
           | Some d => Ok d
           | None => Raise KeyError
           end ;;
  let args := fold_left (fun d kv => dict_set (fst kv) (snd kv) d)
                        targs DEFAULT_CFG_DICT in
  ckpt <- checkpoint_model ckpt ;;
  let kept := List.filter (fun kv : key * value =>
                        match fst kv with
                        | KStr k => bool_decide (k ∈ DEFAULT_CFG_KEYS)
                        | KInt _ => false
                        end) args in
  let ckpt := setattr ckpt "args" (VDict kept) in
  let ckpt := setattr ckpt "pt_path" (weights_value weights) in
  let ckpt := default_stride ckpt in
  match fuse, fuse_method ckpt with
  | true, Some fused => Ok (eval_ fused)
  | _, _ => Ok (eval_ ckpt)
  end.

Fixpoint attempt_load_weights_members (weights : weights_arg) (fuse : bool)
    (model : nn_module) (ws : list string) : io nn_module :=
  match ws with
  | [] => ret model
  | w :: r =>
      ckpt <~ torch_safe_load w ;;
      m <~ lift (attempt_load_weights_member weights fuse ckpt) ;;
      attempt_load_weights_members weights fuse (Ensemble.append model m) r
  end.

(** The body of the loop "Module compatibility updates". *)
Definition attempt_load_weights_update (inplace : value) (t : Class)
    (a : gmap string value) : result (gmap string value) :=
  let locals := attempt_load_weights_locals in
  acts <- eval_tuple locals
            [NnAttr Hardswish; NnAttr LeakyReLU; NnAttr ReLU; NnAttr ReLU6;
             NnAttr SiLU; Name "Detect"; Name "Segment"] ;;
  if class_in t acts then
    Ok (<["inplace" := inplace]> a)
  else if bool_decide (t = Upsample) && negb (hasattr a "recompute_scale_factor") then
    Ok (<["recompute_scale_factor" := VNone]> a)
  else Ok a.

(** The lines after the loop are those of [attempt_load]. *)
Definition attempt_load_weights (weights : weights_arg) (device : value)
    (inplace : value) (fuse : bool) : io nn_module :=
  model <~ attempt_load_weights_members weights fuse Ensemble.init
                                        (weights_list weights) ;;
  model <~ lift (for_modules (attempt_load_weights_update inplace) model) ;;
  attempt_load_return weights model.

(** *** attempt_load_one_weight *)

(** The names [attempt_load_one_weight] binds before its loop over the
    modules: its parameters, the two classes it imports from models.yolo,
    the two names from yolo.utils, and [ckpt], [args] and [model]. *)
Definition attempt_load_one_weight_locals : scope :=
  [ ("weight", VObj 40); ("device", VObj 21); ("inplace", VObj 22);
    ("fuse", VObj 23);
    ("V8_Detect", VClass V8_Detect); ("V8_Segment", VClass V8_Segment);
    ("DEFAULT_CFG_DICT", VObj 30); ("DEFAULT_CFG_KEYS", VObj 31);
    ("ckpt", VObj 33); ("args", VObj 34); ("model", VObj 24) ]%string.

(** [{**DEFAULT_CFG_DICT, **train_args}] and then
    [{k: v for k, v in args.items() if k in DEFAULT_CFG_KEYS}]: the value
    of [model.args]. *)
Definition model_args (targs : list (key * value)) : list (key * value) :=
  let args := fold_left (fun d kv => dict_set (fst kv) (snd kv) d)
                        targs DEFAULT_CFG_DICT in
  List.filter (fun kv : key * value =>
                 match fst kv with
                 | KStr k => bool_decide (k ∈ DEFAULT_CFG_KEYS)
                 | KInt _ => false
                 end) args.

(** From the loaded checkpoint to the model in eval mode. *)
Definition attempt_load_one_weight_model (weight : string) (fuse : bool)
    (ckpt : checkpoint) : result nn_module :=
  targs <- match train_args ckpt with
           | Some d => Ok d
           | None => Raise KeyError
           end ;;
  model <- checkpoint_model ckpt ;;
  let model := setattr model "args" (VDict (model_args targs)) in
  let model := setattr model "pt_path" (VStr weight) in
  let model := default_stride model in
  match fuse, fuse_method model with
  | true, Some fused => Ok (eval_ fused)
  | _, _ => Ok (eval_ model)
  end.

(** The body of the loop "Module compatibility updates". *)
Definition attempt_load_one_weight_update (inplace : value) (t : Class)
    (a : gmap string value) : result (gmap string value) :=
  let locals := attempt_load_one_weight_locals in
  acts <- eval_tuple locals
            [NnAttr Hardswish; NnAttr LeakyReLU; NnAttr ReLU; NnAttr ReLU6;
             NnAttr SiLU; Name "V8_Detect"; Name "V8_Segment"] ;;
  if class_in t acts then
    Ok (<["inplace" := inplace]> a)
  else if bool_decide (t = Upsample) && negb (hasattr a "recompute_scale_factor") then
    Ok (<["recompute_scale_factor" := VNone]> a)
  else Ok a.

(** The checkpoint dict once the model it holds has been updated in place:
    the entry [checkpoint_model] reads holds the updated model. *)
Definition checkpoint_with (ckpt : checkpoint) (m : nn_module) : checkpoint :=
  match ema ckpt with
  | Some _ => {| ema := Some m; model := model ckpt; train_args := train_args ckpt |}
  | None => {| ema := None; model := Some m; train_args := train_args ckpt |}
  end.

(** The function returns the pair [(model, ckpt)].  The model is the
    object held by the checkpoint it was taken from ([to], [float], [fuse]
    and [eval] work in place and return the module), so the entry of the
    returned checkpoint is the model as returned. *)
Definition attempt_load_one_weight (weight : string) (device : value)
    (inplace : value) (fuse : bool) : io (nn_module * checkpoint) :=
  ckpt <~ torch_safe_load weight ;;
  model <~ lift (attempt_load_one_weight_model weight fuse ckpt) ;;
  model <~ lift (for_modules (attempt_load_one_weight_update inplace) model) ;;
  ret (model, checkpoint_with ckpt model).

(** The weights [attempt_download] was asked for, in order. *)
Definition downloaded (t : list event) : list string :=
  flat_map (fun ev => match ev with Download w => [w] | _ => [] end) t.

(** The weights a warning was logged for. *)
Definition warned (t : list event) : list string :=
  flat_map (fun ev => match ev with Warning w _ => [w] | _ => [] end) t.
End Load.
Arguments state world : clear implicits.
Arguments the_world {world} _.
Arguments trace {world} _.
Arguments Build_state {world} _ _.
End Load.

(** ** A small world to run the loader in

    The world is the list of installed packages.  Every weight is found
    locally; [check_requirements] installs what it is asked for; [fuse]
    merges parameters, which are not modelled, and returns the model. *)

Module Example.
Local Open Scope Z_scope.

Definition world : Type := list string.

Definition attempt_download (weight : string) (w : world) : string * world :=
  (weight, w).

Definition check_requirements (name : string) (w : world) : world := name :: w.

Definition fuse_method (m : nn_module) : option nn_module := Some m.

(** A detection head with three layers whose anchor grid is a tensor. *)
Definition head : nn_module :=
  NN Detect (<["anchor_grid" := VTensor [10; 13; 16; 30]]> (<["nl" := VInt 3]> ∅)) [].

(** A detection model: a convolution with its activation, an upsampling
    layer and the head. *)
Definition yolo (nc : Z) (stride : option (list Z)) : nn_module :=
  let a : gmap string value :=
    <["names" := VList [VStr "person"; VStr "car"]]>
      (<["nc" := VInt nc]> (<["yaml" := VDict [(KStr "nc", VInt nc)]]> ∅)) in
  NN ModelC
     (match stride with Some t => <["stride" := VTensor t]> a | None => a end)
     [NN ConvC ∅ [NN SiLU ∅ []]; NN Upsample ∅ []; head].

Definition ckpt_of (m : nn_module) : checkpoint :=
  {| ema := None; model := Some m; train_args := Some [] |}.

Definition torch_load (file : string) (w : world) : result checkpoint :=
  if String.eqb file "a.pt" then Ok (ckpt_of (yolo 80 (Some [8; 16; 32])))
  else if String.eqb file "b.pt" then Ok (ckpt_of (yolo 80 (Some [8; 16; 32; 64])))
  else if String.eqb file "c.pt" then Ok (ckpt_of (yolo 20 None))
  else if String.eqb file "omega.pt" then
    if bool_decide ("omegaconf"%string ∈ w) then Ok (ckpt_of (yolo 80 None))
    else Raise (ModuleNotFoundError "omegaconf")
  else if String.eqb file "pickle.pt" then Raise (ModuleNotFoundError "dill")
  else Raise RuntimeError.

Definition start : Load.state world := Load.Build_state [] [].

Definition torch_safe_load :=
  Load.torch_safe_load world attempt_download torch_load check_requirements.

Definition attempt_load :=
  Load.attempt_load world attempt_download torch_load check_requirements fuse_method.

Definition attempt_load_weights :=
  Load.attempt_load_weights world attempt_download torch_load check_requirements
                            fuse_method [(KStr "imgsz", VInt 640)] ["imgsz"%string].

(** Integer tensors for the layers: addition, product, a stand-in for the
    sigmoid, and concatenation as a sum, which needs an entry. *)
Definition sum_layer : Sum.t Z := Sum.init (fun j => - Z.of_nat j) 3 true.

Definition call (m : nn_module) (x : Z) (augment profile visualize : bool)
    : result (list Z) :=
  match attrs m !! "nc" with
  | Some (VInt nc) => Ok [x + nc; 0]
  | _ => Raise TypeError
  end.

Definition cat (ys : list Z) (dim : Z) : result Z :=
  match ys with
  | [] => Raise ValueError
  | _ :: _ => Ok (fold_right Z.add 0 ys)
  end.

(** The Ensembles [attempt_load] holds before its last lines, for two
    weights of one class count and for two weights of different class
    counts. *)
Definition models (weights : weights_arg) : result nn_module * Load.state world :=
  Load.attempt_load_models world attempt_download torch_load check_requirements
                           fuse_method weights (VBool true) true start.

Definition member (weights : weights_arg) (i : nat) : nn_module :=
  match (models weights).1 with
  | Ok v => nth i (children v) Ensemble.init
  | Raise _ => Ensemble.init
  end.

Definition weights_ab : weights_arg := Paths ["a.pt"; "b.pt"]%string.
Definition weights_ac : weights_arg := Paths ["a.pt"; "c.pt"]%string.

Definition member_ab_a : nn_module := Eval vm_compute in member weights_ab 0.
Definition member_ab_b : nn_module := Eval vm_compute in member weights_ab 1.
Definition member_ac_a : nn_module := Eval vm_compute in member weights_ac 0.
Definition member_ac_c : nn_module := Eval vm_compute in member weights_ac 1.

Definition models_ab : nn_module := NN EnsembleC ∅ [member_ab_a; member_ab_b].
Definition models_ac : nn_module := NN EnsembleC ∅ [member_ac_a; member_ac_c].

Definition loaded (files : list string) : Load.state world :=
  Load.Build_state []
    (flat_map (fun f => [Download f; PrintFile f; TorchLoad f]) files).

(** Three runs of [attempt_load], evaluated: one weight, the two weights
    of one class count, and one weight whose model has no stride. *)
Definition model_a : nn_module :=
  Eval vm_compute in
    match (attempt_load (Path "a.pt") VNone (VBool true) true start).1 with
    | Ok v => v
    | Raise _ => Ensemble.init
    end.

Definition model_c : nn_module :=
  Eval vm_compute in
    match (attempt_load (Path "c.pt") VNone (VBool true) true start).1 with
    | Ok v => v
    | Raise _ => Ensemble.init
    end.

Definition ensemble_ab_attrs : gmap string value :=
  Eval vm_compute in
    match (attempt_load weights_ab VNone (VBool true) true start).1 with
    | Ok v => attrs v
    | Raise _ => ∅
    end.

Definition ensemble_ab : nn_module :=
  NN EnsembleC ensemble_ab_attrs [member_ab_a; member_ab_b].

Definition attempt_load_one_weight :=
  Load.attempt_load_one_weight world attempt_download torch_load check_requirements
                               fuse_method [(KStr "imgsz", VInt 640)] ["imgsz"%string].

(** A run of [attempt_load_one_weight], evaluated: the weight whose model
    has no stride. *)
Definition one_weight_c : nn_module :=
  Eval vm_compute in
    match (attempt_load_one_weight "c.pt" VNone (VBool true) false start).1 with
    | Ok (v, _) => v
    | Raise _ => Ensemble.init
    end.

(** The Ensemble after the first loop of [attempt_load] on a.pt and b.pt,
    before the loop over the modules. *)
Definition members_ab : nn_module :=
  Eval vm_compute in
    match (Load.attempt_load_members world attempt_download torch_load
             check_requirements fuse_method weights_ab true Ensemble.init
             ["a.pt"; "b.pt"]%string start).1 with
    | Ok v => v
    | Raise _ => Ensemble.init
    end.

(** A [fuse] that only the models of 80 classes have, and the Ensemble
    that holds the model of a.pt when a.pt and c.pt are loaded with it. *)
Definition fuse_80 (m : nn_module) : option nn_module :=
  if (Load.nc_of m =? 80)%Z then Some m else None.

Definition members_a_fuse_80 : nn_module :=
  Eval vm_compute in
    match (Load.attempt_load_members world attempt_download torch_load
             check_requirements fuse_80 weights_ac true Ensemble.init
             ["a.pt"]%string start).1 with
    | Ok v => v
    | Raise _ => Ensemble.init
    end.
End Example.

(** * Properties *)

(** ** Results, loops and dictionaries *)

Lemma rbind_Ok {A B} (r : result A) (k : A -> result B) (b : B) :
  rbind r k = Ok b -> exists a, r = Ok a /\ k a = Ok b.
Proof. destruct r as [a|e]; simpl; [eauto | discriminate]. Qed.

Lemma getitem_Ok {A} (l : list A) (i : nat) (a : A) :
  getitem l i = Ok a <-> l !! i = Some a.
Proof.
  unfold getitem. destruct (l !! i); split; intros H; congruence.
Qed.

Lemma getitem_lt {A} (l : list A) (i : nat) :
  (i < length l)%nat -> exists a, getitem l i = Ok a /\ l !! i = Some a.
Proof.
  intros Hi. unfold getitem.
  destruct (l !! i) as [a|] eqn:E; [eauto|].
  apply lookup_ge_None in E. lia.
Qed.

Section DictFacts.
Context {K V : Type} `{EqDecision K}.
Implicit Types (d : list (K * V)).

Lemma dict_set_fresh k v d :
  k ∉ dict_keys d -> dict_set k v d = d ++ [(k, v)].
Proof.
  induction d as [|[k' v'] d IH]; simpl; intros Hk; [done|].
  destruct (decide (k = k')) as [->|Hne].
  - exfalso. apply Hk. constructor.
  - rewrite IH; [done|]. intros Hin. apply Hk. by constructor.
Qed.

Lemma dict_set_not_nil k v d : dict_set k v d <> [].
Proof. destruct d as [|[k' v'] d]; simpl; [done|]. by destruct (decide (k = k')). Qed.

Lemma dict_get_None k d : dict_get k d = None <-> k ∉ dict_keys d.
Proof.
  induction d as [|[k' v'] d IH]; simpl.
  - split; [intros _ Hin; inversion Hin | done].
  - destruct (decide (k = k')) as [->|Hne].
    + split; [done|]. intros Hn. exfalso. apply Hn. constructor.
    + rewrite IH. split; intros Hn Hin; apply Hn.
      * inversion Hin; subst; [done|assumption].
      * by constructor.
Qed.
End DictFacts.

Lemma fold_max_ge (l : list Z) (m : Z) : (m <= fold_left Z.max l m)%Z.
Proof.
  revert m. induction l as [|x l IH]; intros m; simpl; [lia|].
  specialize (IH (Z.max m x)). lia.
Qed.

Lemma fold_max_upper (l : list Z) (m : Z) (x : Z) :
  x ∈ l -> (x <= fold_left Z.max l m)%Z.
Proof.
  revert m. induction l as [|y l IH]; intros m Hin; simpl.
  - inversion Hin.
  - inversion Hin; subst.
    + pose proof (fold_max_ge l (Z.max m y)). lia.
    + by apply IH.
Qed.

Lemma fold_max_elem (l : list Z) (m : Z) :
  fold_left Z.max l m = m \/ fold_left Z.max l m ∈ l.
Proof.
  revert m. induction l as [|y l IH]; intros m; simpl; [by left|].
  destruct (IH (Z.max m y)) as [E|Hin].
  - rewrite E. destruct (Z.max_spec m y) as [[_ ->]|[_ ->]].
    + right. constructor.
    + by left.
  - right. by constructor.
Qed.

(** ** check_class_names *)

Section ClassNamesFacts.
Local Open Scope Z_scope.
Variable py_int : string -> option Z.
Variable human_name : value -> value.

Local Abbreviation check_class_names := (ClassNames.check_class_names py_int human_name).
Local Abbreviation int_keys := (ClassNames.int_keys py_int).
Local Abbreviation int_keys_from := (ClassNames.int_keys_from py_int).
Local Abbreviation all_int_keys := ClassNames.all_int_keys.
Local Abbreviation to_dict := ClassNames.to_dict.
Local Abbreviation imagenet_code := ClassNames.imagenet_code.

Lemma all_int_keys_map (d : list (key * value)) (d' : list (Z * value)) :
  all_int_keys d = Some d' -> d = map (fun kv => (KInt (fst kv), snd kv)) d'.
Proof.
  revert d'. induction d as [|[[z|s] v] d IH]; intros d' H; simpl in H.
  - by inversion H.
  - destruct (all_int_keys d) as [r|]; simpl in H; [|discriminate].
    inversion H; subst. simpl. f_equal. by apply IH.
  - discriminate.
Qed.

Lemma all_int_keys_to_dict d d' : all_int_keys d = Some d' -> to_dict d' = VDict d.
Proof. intros H. unfold ClassNames.to_dict. by rewrite <- (all_int_keys_map _ _ H). Qed.

Lemma all_int_keys_keys d d' :
  all_int_keys d = Some d' -> dict_keys d = map KInt (dict_keys d').
Proof.
  intros H. rewrite (all_int_keys_map _ _ H). unfold dict_keys.
  rewrite !map_map. done.
Qed.

(** Converting the keys of a dictionary whose keys are all ints rebuilds
    it entry by entry. *)
Lemma int_keys_from_all_int d d' acc :
  all_int_keys d = Some d' ->
  NoDup (dict_keys acc ++ dict_keys d') ->
  int_keys_from acc d = Ok (acc ++ d').
Proof.
  revert d' acc. induction d as [|[[z|s] v] d IH]; intros d' acc H Hnd; simpl in H.
  - inversion H; subst. simpl. by rewrite app_nil_r.
  - destruct (all_int_keys d) as [r|] eqn:E; simpl in H; [|discriminate].
    inversion H; subst. simpl.
    simpl in Hnd. apply NoDup_app in Hnd as (Hacc & Hdisj & Hr).
    rewrite dict_set_fresh.
    2:{ intros Hin. apply (Hdisj z Hin). constructor. }
    rewrite (IH r (acc ++ [(z, v)])); [by rewrite <- app_assoc | done |].
    unfold dict_keys. rewrite map_app. simpl. rewrite <- app_assoc. simpl.
    apply NoDup_app. split_and!; [done| |done].
    intros x Hx. apply Hdisj. done.
  - discriminate.
Qed.

Lemma int_keys_all_int d d' :
  all_int_keys d = Some d' -> NoDup (dict_keys d) -> int_keys d = Ok d'.
Proof.
  intros H Hnd. unfold ClassNames.int_keys.
  rewrite (int_keys_from_all_int d d' []); [done|done|].
  simpl. rewrite (all_int_keys_keys _ _ H) in Hnd.
  by apply (NoDup_fmap_1 KInt).
Qed.

Lemma int_keys_from_not_nil d d' acc :
  int_keys_from acc d = Ok d' -> acc <> [] \/ d <> [] -> d' <> [].
Proof.
  revert acc d'. induction d as [|[k v] d IH]; intros acc d' H Hne; simpl in H.
  - inversion H; subst. by destruct Hne.
  - apply rbind_Ok in H as (z & _ & H).
    apply (IH _ _ H). left. apply dict_set_not_nil.
Qed.

(** The keys of [dict(enumerate(l))] from [i] on end at [i + len(l) - 1]. *)
Lemma enumerate_from_all_int (l : list value) (i : Z) :
  exists d', all_int_keys (enumerate_from i l) = Some d' /\
    length d' = length l /\
    (forall m, m <= i - 1 ->
       fold_left Z.max (dict_keys d') m
       = if decide (l = []) then m else i + Z.of_nat (length l) - 1) /\
    py_max (dict_keys d')
    = if decide (l = []) then None else Some (i + Z.of_nat (length l) - 1).
Proof.
  revert i. induction l as [|v l IH]; intros i; simpl.
  - exists []. split_and!; [done|done| |done]. intros m _. done.
  - destruct (IH (i + 1)) as (r & Hr & Hlen & Hmax & _). rewrite Hr. simpl.
    eexists. split_and!; [done| simpl; by rewrite Hlen | |].
    + intros m Hm. simpl. rewrite Hmax by lia.
      destruct (decide (l = [])) as [->|Hne]; simpl; [lia|lia].
    + simpl. rewrite Hmax by lia.
      destruct (decide (l = [])) as [->|Hne]; simpl; f_equal; lia.
Qed.

Lemma enumerate_from_lookup (l : list value) (i : Z) (j : nat) (v : value) :
  l !! j = Some v ->
  dict_get (KInt (i + Z.of_nat j)) (enumerate_from i l) = Some v.
Proof.
  revert i j. induction l as [|x l IH]; intros i j H; [by destruct j|].
  destruct j as [|j]; simpl in H; cbn [enumerate_from dict_get].
  - inversion H; subst. rewrite Z.add_0_r. by rewrite decide_True.
  - rewrite decide_False by (intros E; inversion E; lia).
    replace (i + Z.of_nat (S j)) with ((i + 1) + Z.of_nat j) by lia.
    by apply IH.
Qed.

Lemma dict_get_int_keys (z : Z) (d' : list (Z * value)) :
  dict_get (KInt z) (map (fun kv => (KInt (fst kv), snd kv)) d') = dict_get z d'.
Proof.
  induction d' as [|[k v] d' IH]; simpl; [done|].
  destruct (decide (z = k)) as [->|Hne].
  - by rewrite decide_True.
  - rewrite decide_False by congruence. done.
Qed.

(** What [check_class_names] does once the keys are ints. *)
Lemma check_class_names_dict_run (d : list (key * value)) (d' : list (Z * value)) :
  NoDup (dict_keys d) -> int_keys d = Ok d' ->
  check_class_names (VDict d)
  = match py_max (dict_keys d') with
    | None => Raise ValueError
    | Some mx =>
        if Z.of_nat (length d') <=? mx then Raise KeyError
        else match dict_get 0 d' with
             | None => Raise KeyError
             | Some v0 =>
                 if imagenet_code v0 then Raise (NameError "yaml_load")
                 else Ok (to_dict d')
             end
    end.
Proof.
  intros Hnd Hk. unfold ClassNames.check_class_names. simpl.
  assert (match all_int_keys d with Some d'' => Ok d'' | None => int_keys d end
          = Ok d') as ->.
  { destruct (all_int_keys d) as [d''|] eqn:E; [|done].
    rewrite (int_keys_all_int _ _ E Hnd) in Hk. done. }
  simpl. destruct (py_max (dict_keys d')) as [mx|]; [|done].
  destruct (Z.of_nat (length d') <=? mx); [done|].
  destruct (dict_get 0 d') as [v0|]; [|done].
  destruct (imagenet_code v0); done.
Qed.

(** C10, as amended.  Given a non-empty list of names whose first entry
    is not an ImageNet code, [check_class_names] returns the dictionary
    that maps [i] to [names[i]].  Given a non-empty dictionary whose keys
    convert to int, it raises KeyError if and only if the largest integer
    key is at least the number of entries or [0] is not among the keys;
    otherwise, when entry [0] is not an ImageNet code, it returns the
    dictionary with the converted keys. *)
Theorem check_class_names_amended :
  (forall l : list value,
      l <> [] -> imagenet_code (hd VNone l) = false ->
      check_class_names (VList l) = Ok (VDict (enumerate l)) /\
      forall (i : nat) (v : value),
        l !! i = Some v ->
        dict_get (KInt (Z.of_nat i)) (enumerate l) = Some v) /\
  (forall (d : list (key * value)) (d' : list (Z * value)),
      NoDup (dict_keys d) -> d <> [] -> int_keys d = Ok d' ->
      exists mx, py_max (dict_keys d') = Some mx /\
        (check_class_names (VDict d) = Raise KeyError
         <-> Z.of_nat (length d') <= mx \/ dict_get 0 d' = None) /\
        (forall v0, mx < Z.of_nat (length d') ->
                    dict_get 0 d' = Some v0 -> imagenet_code v0 = false ->
                    check_class_names (VDict d) = Ok (to_dict d'))).
Proof.
  split.
  - intros l Hne Himg. split.
    + destruct (enumerate_from_all_int l 0) as (d' & Hall & Hlen & _ & Hmax).
      unfold ClassNames.check_class_names. simpl.
      unfold enumerate. rewrite Hall. simpl. rewrite Hmax.
      destruct (decide (l = [])) as [->|_]; [done|].
      rewrite Hlen.
      destruct (Z.leb_spec (Z.of_nat (length l)) (0 + Z.of_nat (length l) - 1)) as [Hle|_];
        [lia|].
      rewrite <- dict_get_int_keys, <- (all_int_keys_map _ _ Hall).
      destruct l as [|v l]; [done|].
      assert (dict_get (KInt 0) (enumerate_from 0 (v :: l)) = Some v) as ->
        by exact (enumerate_from_lookup (v :: l) 0 0 v eq_refl).
      simpl in Himg. rewrite Himg.
      by rewrite (all_int_keys_to_dict _ _ Hall).
    + intros i v Hi. apply (enumerate_from_lookup l 0 i v Hi).
  - intros d d' Hnd Hne Hk.
    pose proof (check_class_names_dict_run d d' Hnd Hk) as Hrun.
    assert (d' <> []) as Hne'.
    { apply (int_keys_from_not_nil d d' [] Hk). by right. }
    destruct (py_max (dict_keys d')) as [mx|] eqn:Hmx.
    2:{ destruct d'; [done|discriminate]. }
    exists mx. split; [done|]. split.
    + rewrite Hrun. split.
      * destruct (Z.leb_spec (Z.of_nat (length d')) mx) as [Hle|Hlt]; [by left|].
        destruct (dict_get 0 d') as [v0|]; [|by right].
        destruct (imagenet_code v0); discriminate.
      * intros [Hle|Hnone].
        -- by rewrite (proj2 (Z.leb_le _ _) Hle).
        -- rewrite Hnone. by destruct (_ <=? _).
    + intros v0 Hlt H0 Himg. rewrite Hrun.
      rewrite (proj2 (Z.leb_gt _ _) Hlt), H0, Himg. done.
Qed.
End ClassNamesFacts.

(** The amended statement at two inputs: a list of two names, and a
    dictionary with the string keys of a dataset YAML. *)
Lemma check_class_names_amended_witness :
  ClassNames.check_class_names Decimal.py_int id (VList [VStr "person"; VStr "car"])
  = Ok (VDict [(KInt 0, VStr "person"); (KInt 1, VStr "car")]) /\
  ClassNames.check_class_names Decimal.py_int id
    (VDict [(KStr "1", VStr "car"); (KStr "0", VStr "person")])
  = Ok (VDict [(KInt 1, VStr "car"); (KInt 0, VStr "person")]).
Proof.
  destruct (check_class_names_amended Decimal.py_int id) as [Hlist Hdict].
  split.
  - destruct (Hlist [VStr "person"; VStr "car"]) as [Hrun _];
      [discriminate | reflexivity | exact Hrun].
  - destruct (Hdict [(KStr "1", VStr "car"); (KStr "0", VStr "person")]
                    [(1, VStr "car"); (0, VStr "person")]%Z)
      as (mx & Hmx & _ & Hok).
    + apply (bool_decide_unpack _). vm_compute. reflexivity.
    + discriminate.
    + reflexivity.
    + vm_compute in Hmx. inversion Hmx; subst.
      apply (Hok (VStr "person")); [simpl; lia | reflexivity | reflexivity].
Defined.

(** C10 as stated fails twice: an empty list ends in the ValueError of
    [max] on no keys, and the dictionary [{-1: 'person'}] raises KeyError
    although its largest key, -1, is below its number of entries, 1. *)
Lemma check_class_names_counterexample :
  ClassNames.check_class_names Decimal.py_int id (VList []) = Raise ValueError /\
  ClassNames.check_class_names Decimal.py_int id (VDict [(KInt (-1), VStr "person")])
  = Raise KeyError /\
  py_max [(-1)%Z] = Some (-1)%Z /\
  ((-1) < Z.of_nat (length [(KInt (-1), VStr "person")]))%Z.
Proof. split_and!; [reflexivity | reflexivity | reflexivity | simpl; lia]. Qed.

(** ** Sum.forward *)

Section SumFacts.
Context {tensor : Type}.
Variable add mul : tensor -> tensor -> tensor.
Variable sigmoid : tensor -> tensor.
Variable two : tensor.
Variable initial_weight : nat -> tensor.

Local Abbreviation forward := (Sum.forward add mul sigmoid two).
Local Abbreviation plain_sum := (Sum.plain_sum add).
Local Abbreviation weighted_sum := (Sum.weighted_sum add mul sigmoid two).
Local Abbreviation init := (Sum.init initial_weight).

(** The unweighted loop from index [s] on adds the next [k] inputs. *)
Lemma plain_loop (x : list tensor) (k s : nat) (y : tensor) :
  s + 1 + k <= length x ->
  for_each (fun i y => xi <- getitem x (i + 1) ;; Ok (add y xi)) (seq s k) y
  = Ok (fold_left add (take k (drop (s + 1) x)) y).
Proof.
  revert s y. induction k as [|k IH]; intros s y Hlen; simpl; [done|].
  destruct (getitem_lt x (s + 1)) as (xi & -> & Hxi); [lia|]. simpl.
  rewrite IH by lia.
  rewrite (drop_S _ _ _ Hxi). simpl.
  by replace (S (s + 1)) with (S s + 1) by lia.
Qed.

(** The weighted loop pairs input [i + 1] with weight [i]. *)
Lemma weighted_loop (x ws : list tensor) (k s : nat) (y : tensor) :
  s + 1 + k <= length x -> s + k <= length ws ->
  for_each (fun i y =>
              xi <- getitem x (i + 1) ;;
              wi <- getitem (map (fun wi => mul (sigmoid wi) two) ws) i ;;
              Ok (add y (mul xi wi)))
           (seq s k) y
  = Ok (fold_left (fun y xw => add y (mul (fst xw) (mul (sigmoid (snd xw)) two)))
                  (combine (take k (drop (s + 1) x)) (take k (drop s ws))) y).
Proof.
  revert s y. induction k as [|k IH]; intros s y Hx Hw; simpl; [done|].
  destruct (getitem_lt x (s + 1)) as (xi & -> & Hxi); [lia|]. simpl.
  destruct (getitem_lt ws s) as (wi & _ & Hwi); [lia|].
  assert (getitem (map (fun wi => mul (sigmoid wi) two) ws) s
          = Ok (mul (sigmoid wi) two)) as ->.
  { apply getitem_Ok. rewrite list_lookup_fmap, Hwi. done. }
  simpl. rewrite IH by lia.
  rewrite (drop_S _ _ _ Hxi), (drop_S _ _ _ Hwi). simpl.
  by replace (S (s + 1)) with (S s + 1) by lia.
Qed.

(** [forward] reads the first [n] inputs only. *)
Lemma forward_take (self : Sum.t tensor) (n : nat) (x : list tensor) :
  1 <= n -> n <= length x ->
  Sum.iter self = n - 1 ->
  (Sum.weight self = true -> length (Sum.w self) = n - 1) ->
  forward self x
  = match take n x with
    | [] => Raise IndexError
    | x0 :: xs =>
        Ok (if Sum.weight self then weighted_sum x0 xs (Sum.w self)
            else plain_sum x0 xs)
    end.
Proof.
  intros Hn Hlen Hiter Hw. unfold Sum.forward.
  destruct x as [|x0 x]; [simpl in Hlen; lia|].
  destruct n as [|n]; [lia|]. simpl in *.
  replace (n - 0) with n in * by lia. rewrite Hiter.
  destruct (Sum.weight self).
  - rewrite (weighted_loop (x0 :: x) (Sum.w self) n 0 x0); [|simpl; lia|rewrite Hw; [lia|done]].
    simpl. rewrite drop_0. rewrite (take_ge (Sum.w self)) by (rewrite Hw; [lia|done]).
    done.
  - rewrite (plain_loop (x0 :: x) n 0 x0) by (simpl; lia). done.
Qed.

Lemma init_shape (n : nat) (weight : bool) :
  Sum.iter (init (Z.of_nat n) weight) = n - 1 /\
  length (Sum.w (init (Z.of_nat n) weight)) = if weight then n - 1 else 0.
Proof.
  unfold Sum.init. simpl.
  replace (Z.to_nat (Z.of_nat n - 1)) with (n - 1) by lia.
  split; [done|]. destruct weight; [|done].
  by rewrite length_map, length_seq.
Qed.

(** C7.  Let [self] be a Sum layer for [n >= 2] inputs: it has the loop
    range of [Sum(n, weight)] and, when weighted, a weight vector of its
    length, [n - 1] (the entries may have been trained).  On every [x] of
    length at least [n], [forward] returns [x0 + x1 + ... + x(n-1)] without
    weights, and [x0 + sum of x(i+1) * (sigmoid(w i) * 2)] for [i] in
    [0..n-2] with weights; inputs that agree on their first [n] entries
    give the same result. *)
Theorem Sum_forward_spec (n : nat) (self : Sum.t tensor) (x : list tensor) :
  2 <= n ->
  Sum.iter self = Sum.iter (init (Z.of_nat n) (Sum.weight self)) ->
  length (Sum.w self) = length (Sum.w (init (Z.of_nat n) (Sum.weight self))) ->
  n <= length x ->
  exists x0 xs,
    take n x = x0 :: xs /\
    length xs = n - 1 /\
    (Sum.weight self = true -> length (Sum.w self) = n - 1) /\
    forward self x
    = Ok (if Sum.weight self then weighted_sum x0 xs (Sum.w self)
          else plain_sum x0 xs) /\
    forall x', take n x' = take n x -> forward self x' = forward self x.
Proof.
  intros Hn Hiter Hw Hlen.
  destruct (init_shape n (Sum.weight self)) as [Hi Hl].
  rewrite Hi in Hiter. rewrite Hl in Hw.
  assert (Sum.weight self = true -> length (Sum.w self) = n - 1) as Hw'.
  { intros E. by rewrite E in Hw. }
  pose proof (forward_take self n x ltac:(lia) Hlen Hiter Hw') as Hrun.
  assert (length (take n x) = n) as Htn by (rewrite length_take; lia).
  destruct (take n x) as [|x0 xs] eqn:Htake; simpl in Htn; [lia|].
  exists x0, xs. split_and!; [done|lia|done|done|].
  - intros x' Hx'.
    assert (n <= length x') as Hlen'.
    { apply (f_equal length) in Hx'. rewrite length_take in Hx'.
      simpl in Hx'. lia. }
    rewrite (forward_take self n x' ltac:(lia) Hlen' Hiter Hw'), Hrun, Hx'.
    done.
Qed.
End SumFacts.

(** ** MixConv2d *)

Section MixConv2dFacts.
Local Open Scope Z_scope.
Variable lstsq_channels : Z -> list Z -> list Z.

Local Abbreviation init := (MixConv2d.init lstsq_channels).
Local Abbreviation zsum := (fold_right Z.add 0).

Lemma zsum_pointwise {A} (f g : A -> Z) (l : list A) :
  zsum (map (fun a => f a + g a) l) = zsum (map f l) + zsum (map g l).
Proof. induction l as [|a l IH]; simpl; lia. Qed.

(** Among the groups [0 .. n-1] exactly one counts an index in range. *)
Lemma zsum_indicator (v : Z) (n : nat) :
  zsum (map (fun g : nat => if Z.of_nat g =? v then 1 else 0) (seq 0 n))
  = if (0 <=? v) && (v <? Z.of_nat n) then 1 else 0.
Proof.
  induction n as [|n IH].
  { simpl. destruct (Z.leb_spec 0 v); destruct (Z.ltb_spec v (Z.of_nat 0));
      simpl; lia. }
  rewrite seq_S, map_app, fold_right_app. simpl.
  assert (forall (l : list Z) (a : Z), fold_right Z.add a l = zsum l + a) as Hacc.
  { induction l as [|y l IHl]; intros a; simpl; [lia|]. rewrite IHl. lia. }
  rewrite Hacc, IH.
  destruct (Z.eqb_spec (Z.of_nat n) v) as [E|E];
    destruct (Z.leb_spec 0 v); destruct (Z.ltb_spec v (Z.of_nat n));
    destruct (Z.ltb_spec v (Z.of_nat (S n))); simpl; lia.
Qed.

(** The counts [(i == g).sum()] over [g in range(n)] add up to the number
    of indices that lie in [0 .. n-1]. *)
Lemma count_eq_sum (i : list Z) (n : nat) :
  zsum (map (fun g : nat => MixConv2d.count_eq (Z.of_nat g) i) (seq 0 n))
  = Z.of_nat (length (List.filter (fun v => (0 <=? v) && (v <? Z.of_nat n)) i)).
Proof.
  induction i as [|v i IH].
  - simpl. induction (seq 0 n); simpl; [done|]. unfold MixConv2d.count_eq at 1. simpl. lia.
  - transitivity
      (zsum (map (fun g : nat => (if Z.of_nat g =? v then 1 else 0)
                                 + MixConv2d.count_eq (Z.of_nat g) i) (seq 0 n))).
    + f_equal. apply map_ext. intros g. unfold MixConv2d.count_eq. simpl.
      destruct (Z.of_nat g =? v); simpl; lia.
    + rewrite zsum_pointwise, IH, zsum_indicator. simpl.
      destruct ((0 <=? v) && (v <? Z.of_nat n)); simpl; lia.
Qed.

Lemma count_eq_nonneg (g : Z) (i : list Z) : 0 <= MixConv2d.count_eq g i.
Proof. unfold MixConv2d.count_eq. lia. Qed.

Lemma linspace_length (a b : Q) (steps : Z) (pts : list Q) :
  MixConv2d.linspace a b steps = Ok pts -> Z.of_nat (length pts) = steps.
Proof.
  unfold MixConv2d.linspace. destruct (Z.ltb_spec steps 0) as [|Hge]; [discriminate|].
  intros Hpts. inversion Hpts; subst. rewrite length_map, length_seq. lia.
Qed.

(** The part of C9 that holds for every [n] and [c2]: the channel counts
    are [n] non-negative integers whose sum is at most [c2], and it is
    [c2] exactly when every floored index lies in [0 .. n-1]. *)
Lemma equal_ch_channels_bound (n : nat) (c2 : Z) (c_ : list Z) :
  MixConv2d.equal_ch_channels n c2 = Ok c_ ->
  length c_ = n /\ Forall (fun c => 0 <= c) c_ /\ zsum c_ <= c2.
Proof.
  unfold MixConv2d.equal_ch_channels. intros H.
  apply rbind_Ok in H as (pts & Hpts & H). inversion H; subst; clear H.
  split_and!.
  - by rewrite length_map, length_seq.
  - apply Forall_map, Forall_forall. intros g _. apply count_eq_nonneg.
  - rewrite count_eq_sum. apply linspace_length in Hpts.
    pose proof (filter_length (fun v => (0 <=? v) && (v <? Z.of_nat n)) (map Qfloor pts)) as Hf.
    rewrite length_map in Hf. lia.
Qed.

Lemma filter_length_all {A} (f : A -> bool) (l : list A) :
  length (List.filter f l) = length l <-> forallb f l = true.
Proof.
  induction l as [|a l IH]; simpl; [done|].
  pose proof (filter_length_le f l) as Hle.
  destruct (f a); simpl; [rewrite <- IH; lia|]. split; [lia|discriminate].
Qed.

(** When the counts add up to [c2]: exactly when every floored index lies
    in [0 .. n-1]. *)
Lemma equal_ch_channels_sum (n : nat) (c2 : Z) (pts : list Q) :
  MixConv2d.linspace 0 (MixConv2d.float64 (inject_Z (Z.of_nat n)
                                           - MixConv2d.float64 (1 # 1000000))) c2
  = Ok pts ->
  exists c_,
    MixConv2d.equal_ch_channels n c2 = Ok c_ /\
    (zsum c_ = c2
     <-> forallb (fun v => (0 <=? v) && (v <? Z.of_nat n)) (map Qfloor pts) = true).
Proof.
  intros Hpts. unfold MixConv2d.equal_ch_channels. rewrite Hpts. simpl.
  eexists. split; [reflexivity|].
  rewrite count_eq_sum, <- filter_length_all.
  apply linspace_length in Hpts. rewrite length_map. lia.
Qed.

(** The last of two or more values of [linspace] is the float32 value of
    [end]. *)
Lemma linspace_last (a b : Q) (steps : Z) (pts : list Q) :
  2 <= steps -> MixConv2d.linspace a b steps = Ok pts ->
  last pts = Some (MixConv2d.float32 b).
Proof.
  intros Hsteps. unfold MixConv2d.linspace.
  destruct (Z.ltb_spec steps 0) as [|_]; [lia|]. intros Hpts.
  inversion Hpts; subst; clear Hpts.
  destruct (Z.to_nat steps) as [|k] eqn:Hk; [lia|].
  rewrite seq_S, map_app. cbn [map]. rewrite last_snoc. simpl.
  destruct (Z.eqb_spec (Z.of_nat k) 0) as [E|_]; [lia|].
  destruct (Z.eqb_spec (Z.of_nat k) (steps - 1)) as [_|E]; [done|lia].
Qed.

(** Once [n - 1E-6] rounds to [n] in float32, two or more output channels
    are never all counted. *)
Lemma equal_ch_channels_short (n : nat) (c2 : Z) (c_ : list Z) :
  MixConv2d.float32 (MixConv2d.float64 (inject_Z (Z.of_nat n)
                                        - MixConv2d.float64 (1 # 1000000)))
  = inject_Z (Z.of_nat n) ->
  2 <= c2 ->
  MixConv2d.equal_ch_channels n c2 = Ok c_ ->
  zsum c_ < c2.
Proof.
  intros Hend Hc2 Hc.
  pose proof (equal_ch_channels_bound n c2 c_ Hc) as (_ & _ & Hle).
  destruct (Z.eq_dec (zsum c_) c2) as [Heq|]; [|lia]. exfalso.
  unfold MixConv2d.equal_ch_channels in Hc.
  apply rbind_Ok in Hc as (pts & Hpts & Hc).
  destruct (equal_ch_channels_sum n c2 pts Hpts) as (c_' & Hc' & Hiff).
  unfold MixConv2d.equal_ch_channels in Hc'. rewrite Hpts in Hc'. simpl in Hc'.
  rewrite Hc in Hc'. inversion Hc'; subst c_'; clear Hc'.
  apply Hiff in Heq. rewrite forallb_forall in Heq.
  pose proof (linspace_last _ _ _ _ Hc2 Hpts) as Hlast. rewrite Hend in Hlast.
  specialize (Heq (Z.of_nat n)).
  assert (In (Z.of_nat n) (map Qfloor pts)) as Hin.
  { apply in_map_iff. exists (inject_Z (Z.of_nat n)). split.
    - unfold Qfloor. simpl. apply Z.div_1_r.
    - apply list_elem_of_In. apply last_Some_elem_of. exact Hlast. }
  apply Heq in Hin. apply andb_true_iff in Hin as [_ Hlt].
  apply Z.ltb_lt in Hlt. lia.
Qed.

Lemma map_snd_combine {A B} (l : list A) (l' : list B) :
  length l = length l' -> map snd (combine l l') = l'.
Proof.
  revert l'. induction l as [|a l IH]; intros [|b l'] Hlen; simpl in *;
    [done|discriminate|discriminate|]. f_equal. apply IH. lia.
Qed.

(** C8, as amended.  Every member convolution constructed by MixConv2d
    takes [c1] input channels and uses the group count
    [gcd(c1, c_)], where [c_] is its own number of output channels; for
    [c1 >= 0] that is [c1], a convolution depthwise over the input,
    exactly when [c1] divides [c_]. *)
Theorem MixConv2d_groups (c1 c2 : Z) (k : list Z) (s : Z) (equal_ch : bool)
    (self : MixConv2d.t) :
  init c1 c2 k s equal_ch = Ok self ->
  Forall (fun conv =>
            MixConv2d.in_channels conv = c1 /\
            MixConv2d.groups conv = Z.gcd c1 (MixConv2d.out_channels conv) /\
            (0 <= c1 ->
             MixConv2d.groups conv = c1 <-> (c1 | MixConv2d.out_channels conv)))
         (MixConv2d.m self).
Proof.
  unfold MixConv2d.init. intros H.
  apply rbind_Ok in H as (c_ & _ & H). inversion H; subst; clear H. simpl.
  apply Forall_map, Forall_forall. intros [k0 c0] _. simpl.
  split_and!; [done|done|].
  intros Hc1. symmetry. by apply Z.divide_gcd_iff.
Qed.

End MixConv2dFacts.

(** ** Loading *)

Section LoadFacts.
Context {world : Type}.
Variable attempt_download : string -> world -> string * world.
Variable torch_load : string -> world -> result checkpoint.
Variable check_requirements : string -> world -> world.
Variable fuse_method : nn_module -> option nn_module.
Variable DEFAULT_CFG_DICT : list (key * value).
Variable DEFAULT_CFG_KEYS : list string.

Local Abbreviation io := (Load.io world).
Local Abbreviation torch_safe_load :=
  (Load.torch_safe_load world attempt_download torch_load check_requirements).
Local Abbreviation attempt_load :=
  (Load.attempt_load world attempt_download torch_load check_requirements fuse_method).
Local Abbreviation attempt_load_models :=
  (Load.attempt_load_models world attempt_download torch_load check_requirements
                            fuse_method).
Local Abbreviation attempt_load_members :=
  (Load.attempt_load_members world attempt_download torch_load check_requirements
                             fuse_method).
Local Abbreviation deserialized :=
  (Load.deserialized world attempt_download torch_load check_requirements).
Local Abbreviation attempt_load_weights :=
  (Load.attempt_load_weights world attempt_download torch_load check_requirements
                             fuse_method DEFAULT_CFG_DICT DEFAULT_CFG_KEYS).
Local Abbreviation attempt_load_weights_members :=
  (Load.attempt_load_weights_members world attempt_download torch_load
     check_requirements fuse_method DEFAULT_CFG_DICT DEFAULT_CFG_KEYS).

Lemma bind_Ok {A B} (c : io A) (k : A -> io B) st b st' :
  Load.bind world c k st = (Ok b, st') ->
  exists a st1, c st = (Ok a, st1) /\ k a st1 = (Ok b, st').
Proof.
  unfold Load.bind. destruct (c st) as [[a|e] st1]; intros H; [eauto|discriminate].
Qed.

Lemma lift_Ok {A} (r : result A) st a st' :
  Load.lift world r st = (Ok a, st') -> r = Ok a /\ st' = st.
Proof. unfold Load.lift. intros H. by inversion H. Qed.

(** C4.  [torch_safe_load] first resolves the weight through
    [attempt_download] and then calls [torch.load] on the file.  It calls
    [check_requirements], with the name of the missing module, and
    [torch.load] a second time, exactly when the first call raises
    ModuleNotFoundError; there is no third call.  After a retry the
    outcome is that of the second call, a value or whatever it raises; in
    every other case the outcome is that of the first call, so any other
    exception of it reaches the caller. *)
Theorem torch_safe_load_spec (weight : string) (st : Load.state world) :
  let file := (attempt_download weight (Load.the_world st)).1 in
  let w1 := (attempt_download weight (Load.the_world st)).2 in
  let first := torch_load file w1 in
  let out := torch_safe_load weight st in
  exists rest,
    Load.trace out.2
    = Load.trace st ++ Download weight :: PrintFile file :: TorchLoad file :: rest /\
    (forall name, first = Raise (ModuleNotFoundError name) <-> Load.required rest = [name]) /\
    ((exists name, first = Raise (ModuleNotFoundError name)) <-> Load.loads rest = 1) /\
    ((forall name, first <> Raise (ModuleNotFoundError name)) <-> rest = []) /\
    (forall name,
        first = Raise (ModuleNotFoundError name) ->
        (exists warning, rest = warning ++ [CheckRequirements name; TorchLoad file]
                         /\ Load.loads warning = 0 /\ Load.required warning = []) /\
        out.1 = torch_load file (check_requirements name w1) /\
        Load.the_world out.2 = check_requirements name w1) /\
    ((forall name, first <> Raise (ModuleNotFoundError name)) ->
     out.1 = first /\ Load.the_world out.2 = w1).
Proof.
  unfold Load.torch_safe_load, Load.bind, Load.try_except, Load.call_attempt_download,
    Load.call_torch_load, Load.call_check_requirements, Load.emit, Load.throw, Load.ret.
  destruct (attempt_download weight (Load.the_world st)) as [file w1]. simpl.
  assert (forall t : list event,
             ((t ++ [Download weight]) ++ [PrintFile file]) ++ [TorchLoad file]
             = t ++ Download weight :: PrintFile file :: TorchLoad file :: []) as Hpre.
  { intros t. by rewrite <- !app_assoc. }
  destruct (torch_load file w1) as [ckpt|e] eqn:Hfirst; simpl.
  { exists []. rewrite Hpre. split_and!; try done.
    split; [intros [name Hn]|]; discriminate. }
  destruct e as [name| | | | | | | |];
    try (exists []; rewrite Hpre; split_and!; try done;
         split; [intros [? ?]|]; discriminate).
  destruct (String.eqb name "omegaconf"); simpl.
  - exists [Warning weight name; CheckRequirements name; TorchLoad file].
    split_and!.
    + rewrite <- !app_assoc. done.
    + intros n. simpl. split; intros H; inversion H; done.
    + split; [done|]. eauto.
    + split; [|discriminate]. intros H. by destruct (H name).
    + intros n Hn. inversion Hn; subst. split_and!; [|done|done].
      exists [Warning weight n]. done.
    + intros H. by destruct (H name).
  - exists [CheckRequirements name; TorchLoad file].
    split_and!.
    + rewrite <- !app_assoc. done.
    + intros n. simpl. split; intros H; inversion H; done.
    + split; [done|]. eauto.
    + split; [|discriminate]. intros H. by destruct (H name).
    + intros n Hn. inversion Hn; subst. split_and!; [|done|done].
      exists []. done.
    + intros H. by destruct (H name).
Qed.

(** *** The loops over the modules *)

Lemma rmap_Forall2 {A B} (f : A -> result B) (l : list A) (l' : list B) :
  rmap f l = Ok l' <-> Forall2 (fun x y => f x = Ok y) l l'.
Proof.
  revert l'. induction l as [|x l IH]; intros l'; simpl.
  - split; [intros H; inversion H; constructor | intros H; by inversion H].
  - split.
    + intros H. apply rbind_Ok in H as (y & Hy & H).
      apply rbind_Ok in H as (ys & Hys & H). inversion H; subst.
      constructor; [done|]. by apply IH.
    + intros H. inversion H as [|? y ? ys Hy Hys]; subst.
      rewrite Hy. simpl. apply IH in Hys. rewrite Hys. done.
Qed.

Lemma for_modules_Ok body (m m' : nn_module) :
  for_modules body m = Ok m' ->
  cls m' = cls m /\
  body (cls m) (attrs m) = Ok (attrs m') /\
  Forall2 (fun x y => for_modules body x = Ok y) (children m) (children m').
Proof.
  destruct m as [c a ch]. simpl. intros H.
  apply rbind_Ok in H as (a' & Ha & H).
  apply rbind_Ok in H as (ch' & Hch & H). inversion H; subst. simpl.
  split_and!; [done|done|]. by apply rmap_Forall2.
Qed.

(** The loop of [attempt_load_weights] stops at its first module: the
    tuple of classes names [Detect], which nothing binds there. *)
Lemma attempt_load_weights_update_raises inplace t a :
  Load.attempt_load_weights_update inplace t a = Raise (NameError "Detect").
Proof. reflexivity. Qed.

Lemma for_modules_weights_raises inplace (m : nn_module) :
  for_modules (Load.attempt_load_weights_update inplace) m = Raise (NameError "Detect").
Proof. destruct m as [c a ch]. reflexivity. Qed.

(** C2.  [attempt_load_weights] never returns a model or an ensemble:
    whenever its first loop has loaded the checkpoints, the loop over the
    modules raises NameError for [Detect], which the function does not
    bind. *)
Theorem attempt_load_weights_raises (weights : weights_arg) (device inplace : value)
    (fuse : bool) (st : Load.state world) :
  (forall model st1,
      attempt_load_weights_members weights fuse Ensemble.init (weights_list weights) st
      = (Ok model, st1) ->
      attempt_load_weights weights device inplace fuse st
      = (Raise (NameError "Detect"), st1)) /\
  returns (attempt_load_weights weights device inplace fuse st).1 = false.
Proof.
  unfold Load.attempt_load_weights, Load.bind, Load.lift.
  destruct (attempt_load_weights_members _ _ _ _ st) as [[model|e] st1].
  - rewrite for_modules_weights_raises. split; [|done].
    intros model' st1' H. by inversion H.
  - split; [|done]. intros model' st1' H. discriminate.
Qed.

(** What the loop "Compatibility updates" of [attempt_load] does to one
    module: the branch that rebuilds [anchor_grid] asks whether the class
    object [t] is an instance of a detection head, which no class is. *)
Lemma attempt_load_update_run (inplace : value) (t : Class) (a : gmap string value) :
  Load.attempt_load_update inplace t a
  = Ok (if class_in t [VClass Hardswish; VClass LeakyReLU; VClass ReLU; VClass ReLU6;
                       VClass SiLU; VClass ModelC; VClass V8_Detect; VClass V8_Segment]
        then <["inplace" := inplace]> a
        else if class_in t [VClass ConvC]
             then <["_non_persistent_buffers_set" := VSet []]> a
             else if bool_decide (t = Upsample)
                     && negb (hasattr a "recompute_scale_factor")
                  then <["recompute_scale_factor" := VNone]> a
                  else a).
Proof.
  unfold Load.attempt_load_update.
  match goal with
  | |- rbind ?e _ = _ =>
      assert (e = Ok [VClass Hardswish; VClass LeakyReLU; VClass ReLU; VClass ReLU6;
                      VClass SiLU; VClass ModelC; VClass V8_Detect; VClass V8_Segment])
        as -> by (vm_compute; reflexivity)
  end.
  cbn [rbind].
  destruct (class_in t _).
  - match goal with
    | |- rbind ?e _ = _ =>
        assert (e = Ok [VClass Detect; VClass Decoupled_Detect; VClass Kpt_Detect;
                        VClass IKeypoint; VClass ASFF_Detect; VClass IDetect;
                        VClass Segment; VClass IBin; VClass IAuxDetect;
                        VClass Segment; VClass IBin; VClass IAuxDetect])
          as -> by (vm_compute; reflexivity)
    end.
    reflexivity.
  - assert (lookup_name Load.attempt_load_locals "Conv" = Ok (VClass ConvC)) as ->
      by (vm_compute; reflexivity).
    cbn [rbind].
    destruct (class_in t [VClass ConvC]); [done|].
    destruct (bool_decide (t = Upsample) && negb (hasattr a "recompute_scale_factor")); done.
Qed.

Lemma attempt_load_update_keeps inplace t a a' (k : string) :
  Load.attempt_load_update inplace t a = Ok a' ->
  k <> "inplace"%string -> k <> "_non_persistent_buffers_set"%string ->
  k <> "recompute_scale_factor"%string ->
  a' !! k = a !! k.
Proof.
  rewrite attempt_load_update_run. intros H H1 H2 H3. inversion H; subst; clear H.
  repeat match goal with
         | |- context [if ?b then _ else _] => destruct b
         end; by rewrite ?lookup_insert_ne.
Qed.

(** Induction over a module and its descendants. *)
Lemma nn_module_forall (P : nn_module -> Prop) :
  (forall c a ch, Forall P ch -> P (NN c a ch)) -> forall m, P m.
Proof.
  intros Hnode. fix IH 1. intros [c a ch]. apply Hnode.
  induction ch as [|x ch IHch]; constructor; [apply IH | exact IHch].
Qed.

(** The loop "Compatibility updates" of [attempt_load] raises nothing. *)
Lemma attempt_load_updates_total (inplace : value) (m : nn_module) :
  exists m', for_modules (Load.attempt_load_update inplace) m = Ok m'.
Proof.
  induction m as [c a ch IH] using nn_module_forall. simpl.
  rewrite attempt_load_update_run. cbn [rbind].
  assert (exists ch', rmap (for_modules (Load.attempt_load_update inplace)) ch = Ok ch')
    as [ch' ->].
  { induction IH as [|x ch [x' Hx] _ [ch' Hch]]; simpl; [eauto|].
    rewrite Hx, Hch. simpl. eauto. }
  simpl. eauto.
Qed.

(** *** The first loop *)

Lemma attrs_setattr m k v : attrs (setattr m k v) = <[k := v]> (attrs m).
Proof. by destruct m. Qed.

Lemma cls_setattr m k v : cls (setattr m k v) = cls m.
Proof. by destruct m. Qed.

Lemma children_setattr m k v : children (setattr m k v) = children m.
Proof. by destruct m. Qed.

Lemma attrs_eval m : attrs (eval_ m) = <["training" := VBool false]> (attrs m).
Proof. by destruct m. Qed.

Lemma default_stride_lookup (m : nn_module) :
  attrs (Load.default_stride m) !! "stride"
  = Some (default (VTensor [32%Z]) (attrs m !! "stride")).
Proof.
  unfold Load.default_stride, hasattr.
  case_bool_decide as Hs.
  - destruct Hs as [s Hs]. by rewrite Hs.
  - rewrite attrs_setattr, lookup_insert_eq.
    destruct (attrs m !! "stride") as [s|] eqn:E; [|done].
    exfalso. apply Hs. eauto.
Qed.

(** The stride of an appended model, given that [fuse] leaves the
    attribute alone. *)
Lemma attempt_load_prepare_stride weights fuse (d m : nn_module) :
  (forall m f, fuse_method m = Some f -> attrs f !! "stride" = attrs m !! "stride") ->
  Load.attempt_load_prepare fuse_method weights fuse d = Ok m ->
  attrs m !! "stride" = Some (default (VTensor [32%Z]) (attrs d !! "stride")).
Proof.
  intros Hfuse. unfold Load.attempt_load_prepare.
  pose proof (default_stride_lookup (setattr d "pt_path" (weights_value weights))) as Hs.
  rewrite attrs_setattr, lookup_insert_ne in Hs by done.
  destruct fuse.
  - destruct (fuse_method _) as [f|] eqn:Hf; [|discriminate].
    intros H. inversion H; subst. rewrite attrs_eval, lookup_insert_ne by done.
    by rewrite (Hfuse _ _ Hf).
  - intros H. inversion H; subst. by rewrite attrs_eval, lookup_insert_ne.
Qed.

(** The first loop appends one prepared model per weight, in order, and
    reads the checkpoints exactly as [deserialized] does. *)
Lemma attempt_load_members_Ok weights fuse (ws : list string) (acc model : nn_module)
    (st st1 : Load.state world) :
  attempt_load_members weights fuse acc ws st = (Ok model, st1) ->
  cls model = cls acc /\ attrs model = attrs acc /\
  exists ds ms,
    deserialized ws st = (Ok ds, st1) /\
    children model = children acc ++ ms /\
    Forall2 (fun d m => Load.attempt_load_prepare fuse_method weights fuse d = Ok m) ds ms.
Proof.
  revert acc st. induction ws as [|w ws IH]; intros acc st H; simpl in H.
  - inversion H; subst. split_and!; [done|done|].
    exists [], []. split_and!; [done|by rewrite app_nil_r|constructor].
  - apply bind_Ok in H as (ckpt & s1 & Hload & H).
    apply bind_Ok in H as (d & s2 & Hd & H). apply lift_Ok in Hd as [Hd ->].
    apply bind_Ok in H as (m & s3 & Hm & H). apply lift_Ok in Hm as [Hm ->].
    apply IH in H as (Hc & Ha & ds & ms & Hds & Hch & Hall).
    destruct acc as [c a ch]. simpl in *.
    split_and!; [done|done|].
    exists (d :: ds), (m :: ms). split_and!.
    + unfold Load.bind at 1. rewrite Hload. unfold Load.bind at 1.
      unfold Load.lift at 1. rewrite Hd. unfold Load.bind. rewrite Hds. done.
    + by rewrite Hch, <- app_assoc.
    + by constructor.
Qed.

Lemma deserialized_length (ws : list string) (st st1 : Load.state world) ds :
  deserialized ws st = (Ok ds, st1) -> length ds = length ws.
Proof.
  revert st ds. induction ws as [|w ws IH]; intros st ds H; simpl in H.
  - by inversion H.
  - apply bind_Ok in H as (ckpt & s1 & _ & H).
    apply bind_Ok in H as (d & s2 & _ & H).
    apply bind_Ok in H as (rest & s3 & Hrest & H). inversion H; subst.
    simpl. f_equal. by apply (IH _ _ Hrest).
Qed.

(** The Ensemble before the last lines of [attempt_load]: one model per
    weight, each prepared by the first loop and updated by the second. *)
Lemma attempt_load_models_Ok weights inplace fuse (st st1 : Load.state world) model :
  attempt_load_models weights inplace fuse st = (Ok model, st1) ->
  cls model = EnsembleC /\
  length (children model) = length (weights_list weights) /\
  exists ds,
    deserialized (weights_list weights) st = (Ok ds, st1) /\
    Forall2 (fun d m =>
               exists m0,
                 Load.attempt_load_prepare fuse_method weights fuse d = Ok m0 /\
                 for_modules (Load.attempt_load_update inplace) m0 = Ok m)
            ds (children model).
Proof.
  unfold Load.attempt_load_models. intros H.
  apply bind_Ok in H as (model0 & s1 & Hmem & H). apply lift_Ok in H as [Hupd ->].
  apply attempt_load_members_Ok in Hmem as (Hc & _ & ds & ms & Hds & Hch & Hall).
  apply for_modules_Ok in Hupd as (Hc' & _ & Hch').
  simpl in Hch. rewrite Hch in Hch'.
  assert (Forall2 (fun d m =>
               exists m0,
                 Load.attempt_load_prepare fuse_method weights fuse d = Ok m0 /\
                 for_modules (Load.attempt_load_update inplace) m0 = Ok m)
            ds (children model)) as Hboth.
  { clear -Hall Hch'. revert Hch'. generalize (children model).
    induction Hall as [|d m0 ds ms Hd Hall IH]; intros l Hl; inversion Hl; subst;
      constructor; eauto. }
  split_and!; [by rewrite Hc', Hc | | eauto].
  apply Forall2_length in Hboth. rewrite <- Hboth.
  by apply (deserialized_length _ _ _ _ Hds).
Qed.

(** *** The last lines *)

Lemma rmap_ext_Ok {A B} (f : A -> result B) (g : A -> B) (l : list A) :
  Forall (fun x => f x = Ok (g x)) l -> rmap f l = Ok (map g l).
Proof.
  induction 1 as [|x l Hx _ IH]; simpl; [done|]. by rewrite Hx, IH.
Qed.

Lemma rall_ext_Ok {A} (f : A -> result bool) (g : A -> bool) (l : list A) :
  Forall (fun x => f x = Ok (g x)) l -> rall f l = Ok (forallb g l).
Proof.
  induction 1 as [|x l Hx _ IH]; simpl; [done|]. rewrite Hx. simpl.
  by destruct (g x).
Qed.

(** [argmax_from] keeps the first largest entry seen so far. *)
Lemma argmax_from_spec (p l : list Z) (best : Z) (ibest : nat) :
  p !! ibest = Some best -> Forall (fun x => (x <= best)%Z) p ->
  exists mx,
    (p ++ l) !! argmax_from best ibest (length p) l = Some mx /\
    Forall (fun x => (x <= mx)%Z) (p ++ l).
Proof.
  revert p best ibest. induction l as [|x l IH]; intros p best ibest Hb Hp; simpl.
  - exists best. rewrite app_nil_r. done.
  - replace (p ++ x :: l) with ((p ++ [x]) ++ l) by (by rewrite <- app_assoc).
    replace (S (length p)) with (length (p ++ [x])) by (rewrite length_app; simpl; lia).
    destruct (Z.ltb_spec best x) as [Hlt|Hge].
    + apply IH.
      * rewrite lookup_app_r by lia. by replace (length p - length p) with 0 by lia.
      * apply Forall_app. split; [|by repeat constructor].
        eapply Forall_impl; [exact Hp|]. simpl. intros. lia.
    + apply IH.
      * rewrite lookup_app_l; [done|]. by apply lookup_lt_Some in Hb.
      * apply Forall_app. split; [done|]. by repeat constructor.
Qed.

Lemma argmax_spec (l : list Z) :
  l <> [] ->
  exists i mx, argmax l = Ok i /\ l !! i = Some mx /\ Forall (fun x => (x <= mx)%Z) l.
Proof.
  destruct l as [|x l]; [done|]. intros _. simpl.
  destruct (argmax_from_spec [x] l x 0) as (mx & Hi & Hall); [done|by repeat constructor|].
  eauto.
Qed.

(** The shape of what the last lines return for an ensemble. *)
Lemma ensemble_attrs_shape (model v : nn_module) :
  Load.ensemble_attrs model = Ok v -> cls v = cls model /\ children v = children model.
Proof.
  unfold Load.ensemble_attrs. intros H.
  apply rbind_Ok in H as (model3 & H3 & H).
  assert (cls model3 = cls model /\ children model3 = children model) as [Hc Hch].
  { revert H3. generalize ["names"; "nc"; "yaml"]%string. intros keys. revert model.
    induction keys as [|k keys IH]; intros model H3; simpl in H3.
    - by inversion H3.
    - apply rbind_Ok in H3 as (m1 & H1 & H3).
      apply rbind_Ok in H1 as (first & _ & H1).
      apply rbind_Ok in H1 as (x & _ & H1). inversion H1; subst.
      apply IH in H3 as [-> ->]. by rewrite cls_setattr, children_setattr. }
  apply rbind_Ok in H as (maxes & _ & H).
  apply rbind_Ok in H as (i & _ & H).
  apply rbind_Ok in H as (widest & _ & H).
  apply rbind_Ok in H as (s & _ & H).
  apply rbind_Ok in H as (same & _ & H).
  destruct same; [|discriminate]. inversion H; subst.
  by rewrite cls_setattr, children_setattr.
Qed.

(** The last lines on detection models. *)
Lemma ensemble_attrs_run (model first : nn_module) (rest : list nn_module) :
  children model = first :: rest ->
  Forall Load.detection_model (first :: rest) ->
  exists i widest vn vy t,
    (first :: rest) !! i = Some widest /\
    Forall (fun m => (Load.stride_max m <= Load.stride_max widest)%Z) (first :: rest) /\
    attrs first !! "names" = Some vn /\
    attrs first !! "yaml" = Some vy /\
    attrs widest !! "stride" = Some (VTensor t) /\
    Load.ensemble_attrs model
    = if forallb (fun m => (Load.nc_of first =? Load.nc_of m)%Z) (first :: rest)
      then Ok (setattr
                 (setattr
                    (setattr (setattr model "names" vn) "nc" (VInt (Load.nc_of first)))
                    "yaml" vy)
                 "stride" (VTensor t))
      else Raise AssertionError.
Proof.
  intros Hch Hwf.
  pose proof (Forall_inv Hwf) as ([vn Hvn] & Hnc & [vy Hvy] & _).
  destruct (argmax_spec (map Load.stride_max (first :: rest))) as (i & mx & Hi & Hmx & Hle);
    [done|].
  rewrite list_lookup_fmap in Hmx.
  destruct ((first :: rest) !! i) as [widest|] eqn:Hw; [|discriminate].
  simpl in Hmx. inversion Hmx; subst mx.
  pose proof (proj1 (Forall_forall _ _) Hwf widest
                (proj2 (list_elem_of_lookup _ _) (ex_intro _ i Hw)))
    as (_ & _ & _ & x & t & Hst).
  exists i, widest, vn, vy, (x :: t).
  split_and!; [done| |done|done|done|].
  { exact (proj1 (Forall_map Load.stride_max
                     (fun x => (x <= Load.stride_max widest)%Z) (first :: rest)) Hle). }
  unfold Load.ensemble_attrs. destruct model as [c a ch]. simpl in Hch. subst ch.
  cbn [for_each setattr children rbind getitem lookup list_lookup attrs].
  unfold getattr at 1. rewrite Hvn.
  cbn [for_each setattr children rbind getitem lookup list_lookup attrs].
  unfold getattr at 1. rewrite Hnc.
  cbn [for_each setattr children rbind getitem lookup list_lookup attrs].
  unfold getattr at 1. rewrite Hvy.
  cbn [for_each setattr children rbind getitem lookup list_lookup attrs].
  rewrite (rmap_ext_Ok _ Load.stride_max).
  2:{ eapply Forall_impl; [exact Hwf|]. simpl.
      intros m (_ & _ & _ & y & u & Hs). unfold getattr, Load.stride_max.
      rewrite Hs. done. }
  cbn [rbind]. rewrite Hi. cbn [rbind].
  unfold getitem at 1. rewrite Hw. cbn [rbind].
  unfold getattr at 1. rewrite Hst. cbn [rbind].
  rewrite (rall_ext_Ok _ (fun m => (Load.nc_of first =? Load.nc_of m)%Z)).
  2:{ eapply Forall_impl; [exact Hwf|]. simpl.
      intros m (_ & Hm & _ & _). unfold getattr.
      rewrite Hnc, Hm. done. }
  cbn [rbind]. done.
Qed.

(** *** attempt_load *)

Section Forward.
Context {tensor : Type}.
Variable call : nn_module -> tensor -> bool -> bool -> bool -> result (list tensor).
Variable cat : list tensor -> Z -> result tensor.

(** [Ensemble.forward] concatenates the first outputs of the members
    along dimension 1 and pairs the result with [None]. *)
Lemma Ensemble_forward_outputs (self : nn_module) (x : tensor)
    (augment profile visualize : bool) (outs : list tensor) :
  Forall2 (fun m o => exists rest, call m x augment profile visualize = Ok (o :: rest))
          (children self) outs ->
  Ensemble.forward tensor call cat self x augment profile visualize
  = (y <- cat outs 1%Z ;; Ok (y, VNone)).
Proof.
  intros Hout. unfold Ensemble.forward.
  assert (rmap (fun module =>
                  out <- call module x augment profile visualize ;; getitem out 0)
               (children self) = Ok outs) as ->; [|done].
  apply rmap_Forall2. eapply Forall2_impl; [exact Hout|]. simpl.
  intros m o [rest ->]. done.
Qed.
End Forward.

(** C5.  Let [fuse] leave the stride attribute alone.  After
    [attempt_load] returns, every loaded model (the one returned, or each
    member of the ensemble) has a stride: the tensor [[32.]] if the
    deserialized model had none, and the stride of the deserialized model
    otherwise. *)
Theorem attempt_load_stride (weights : weights_arg) (device inplace : value)
    (fuse : bool) (st st' : Load.state world) (v : nn_module) :
  (forall m f, fuse_method m = Some f -> attrs f !! "stride" = attrs m !! "stride") ->
  attempt_load weights device inplace fuse st = (Ok v, st') ->
  exists ds st1,
    deserialized (weights_list weights) st = (Ok ds, st1) /\
    Forall2 (fun d m =>
               match attrs d !! "stride" with
               | None => attrs m !! "stride" = Some (VTensor [32%Z])
               | Some s => attrs m !! "stride" = Some s
               end)
            ds
            (if decide (length (weights_list weights) = 1) then [v] else children v).
Proof.
  intros Hfuse H. unfold Load.attempt_load in H.
  apply bind_Ok in H as (model & st1 & Hmodels & Hret).
  pose proof (attempt_load_models_Ok _ _ _ _ _ _ Hmodels) as (Hcls & Hlen & ds & Hds & Hall).
  exists ds, st1. split; [done|].
  assert ((if decide (length (weights_list weights) = 1) then [v] else children v)
          = children model) as ->.
  { unfold Load.attempt_load_return in Hret. rewrite Hlen in Hret.
    destruct (decide (length (weights_list weights) = 1)) as [E|E].
    - rewrite E in Hlen, Hret. simpl in Hret.
      destruct (children model) as [|m [|m' l]]; try discriminate.
      apply lift_Ok in Hret as [Hget _]. by inversion Hget.
    - destruct (Nat.eqb_spec (length (weights_list weights)) 1) as [E'|_]; [done|].
      apply bind_Ok in Hret as ([] & st2 & _ & Hret).
      apply lift_Ok in Hret as [Hens _].
      by apply ensemble_attrs_shape in Hens as [_ Hch]. }
  eapply Forall2_impl; [exact Hall|]. simpl.
  intros d m (m0 & Hprep & Hupd).
  apply (attempt_load_prepare_stride _ _ _ _ Hfuse) in Hprep.
  apply for_modules_Ok in Hupd as (_ & Hbody & _).
  apply (attempt_load_update_keeps _ _ _ _ "stride") in Hbody; [|done|done|done].
  rewrite Hbody, Hprep. by destruct (attrs d !! "stride").
Qed.

(** C6.  Let the Ensemble built by [attempt_load] hold two or more
    detection models.  Then [attempt_load] raises AssertionError if and
    only if the models do not all have the class count of the first, and
    it returns otherwise.  The ensemble returned has the names, nc and
    yaml of the first model, and the stride of a member whose largest
    stride entry is largest among the members. *)
Theorem attempt_load_ensemble (weights : weights_arg) (device inplace : value)
    (fuse : bool) (st st1 : Load.state world) (model : nn_module) :
  attempt_load_models weights inplace fuse st = (Ok model, st1) ->
  2 <= length (children model) ->
  Forall Load.detection_model (children model) ->
  exists first,
    children model !! 0 = Some first /\
    let out := attempt_load weights device inplace fuse st in
    let same_nc := Forall (fun m => Load.nc_of m = Load.nc_of first) (children model) in
    (out.1 = Raise AssertionError <-> ~ same_nc) /\
    (same_nc -> returns out.1 = true) /\
    (forall v, out.1 = Ok v ->
       cls v = EnsembleC /\ children v = children model /\
       attrs v !! "names" = attrs first !! "names" /\
       attrs v !! "nc" = attrs first !! "nc" /\
       attrs v !! "yaml" = attrs first !! "yaml" /\
       exists i widest,
         children model !! i = Some widest /\
         attrs v !! "stride" = attrs widest !! "stride" /\
         Forall (fun m => (Load.stride_max m <= Load.stride_max widest)%Z)
                (children model)).
Proof.
  intros Hmodels Hlen Hwf.
  pose proof (attempt_load_models_Ok _ _ _ _ _ _ Hmodels) as (Hcls & _ & _).
  destruct (children model) as [|first rest] eqn:Hch; [simpl in Hlen; lia|].
  exists first. split; [done|].
  destruct (ensemble_attrs_run model first rest Hch Hwf)
    as (i & widest & vn & vy & t & Hw & Hle & Hvn & Hvy & Hst & Hrun).
  assert ((attempt_load weights device inplace fuse st).1 = Load.ensemble_attrs model)
    as Hout.
  { unfold Load.attempt_load, Load.bind at 1. rewrite Hmodels.
    unfold Load.attempt_load_return. rewrite Hch.
    destruct (Nat.eqb_spec (length (first :: rest)) 1) as [E|_]; [lia|].
    unfold Load.bind, Load.emit, Load.lift. done. }
  simpl. rewrite Hout, Hrun.
  assert (forallb (fun m => (Load.nc_of first =? Load.nc_of m)%Z) (first :: rest) = true
          <-> Forall (fun m => Load.nc_of m = Load.nc_of first) (first :: rest)) as Hsame.
  { rewrite forallb_forall, Forall_forall. split; intros H m Hm.
    - symmetry. apply Z.eqb_eq, H. by apply list_elem_of_In.
    - apply Z.eqb_eq. symmetry. apply H. by apply list_elem_of_In. }
  destruct (forallb _ (first :: rest)) eqn:Hb.
  - split_and!.
    + split; [discriminate|]. intros Hn. exfalso. apply Hn. by apply Hsame.
    + done.
    + intros v Hv. inversion Hv; subst; clear Hv.
      pose proof (Forall_inv Hwf) as (_ & Hnc & _).
      destruct model as [c a ch]. simpl in *. subst.
      split_and!; [done|done| | | |].
      * rewrite lookup_insert_ne, lookup_insert_ne, lookup_insert_ne, lookup_insert_eq by done.
        done.
      * rewrite lookup_insert_ne, lookup_insert_ne, lookup_insert_eq by done. done.
      * rewrite lookup_insert_ne, lookup_insert_eq by done. done.
      * exists i, widest. split_and!; [done| |done].
        rewrite lookup_insert_eq. done.
  - split_and!.
    + split; [|done]. intros _ Hall. apply Hsame in Hall. discriminate.
    + intros Hall. apply Hsame in Hall. discriminate.
    + intros v Hv. discriminate.
Qed.
End LoadFacts.

(** ** What attempt_load returns *)

Lemma Forall2_chain {A B C} (R : A -> B -> Prop) (S : B -> C -> Prop)
    (l1 : list A) (l2 : list B) (l3 : list C) :
  Forall2 R l1 l2 -> Forall2 S l2 l3 ->
  Forall2 (fun x z => exists y, R x y /\ S y z) l1 l3.
Proof.
  intros H. revert l3. induction H as [|x y l1 l2 Hxy _ IH]; intros l3 H3.
  - inversion H3. constructor.
  - inversion H3 as [|? z ? l3' Hyz Hl3]; subst. constructor; [eauto|by apply IH].
Qed.

Section LoadReturns.
Context {world tensor : Type}.
Variable attempt_download : string -> world -> string * world.
Variable torch_load : string -> world -> result checkpoint.
Variable check_requirements : string -> world -> world.
Variable fuse_method : nn_module -> option nn_module.
Variable call : nn_module -> tensor -> bool -> bool -> bool -> result (list tensor).
Variable cat : list tensor -> Z -> result tensor.

Local Abbreviation checkpoints :=
  (Load.checkpoints world attempt_download torch_load check_requirements).
Local Abbreviation deserialized :=
  (Load.deserialized world attempt_download torch_load check_requirements).
Local Abbreviation attempt_load :=
  (Load.attempt_load world attempt_download torch_load check_requirements fuse_method).
Local Abbreviation attempt_load_models :=
  (Load.attempt_load_models world attempt_download torch_load check_requirements
                            fuse_method).
Local Abbreviation attempt_load_members :=
  (Load.attempt_load_members world attempt_download torch_load check_requirements
                             fuse_method).

(** The model a checkpoint holds: the entry 'ema' if there is one that is
    not [None], and the entry 'model' otherwise. *)
Local Abbreviation holds :=
  (fun (ckpt : checkpoint) (d : nn_module) =>
     ema ckpt = Some d \/ (ema ckpt = None /\ model ckpt = Some d)).

(** The models the first loop takes are those the checkpoints hold, and
    nothing is done to the outside in between. *)
Lemma deserialized_checkpoints (ws : list string) (st st1 : Load.state world)
    (ds : list nn_module) :
  deserialized ws st = (Ok ds, st1) ->
  exists ckpts, checkpoints ws st = (Ok ckpts, st1) /\ Forall2 holds ckpts ds.
Proof.
  revert st ds. induction ws as [|w ws IH]; intros st ds H; simpl in H.
  - inversion H; subst. exists []. split; [done|constructor].
  - apply bind_Ok in H as (ckpt & s1 & Hload & H).
    apply bind_Ok in H as (d & s2 & Hd & H). apply lift_Ok in Hd as [Hd ->].
    apply bind_Ok in H as (rest & s3 & Hrest & H). inversion H; subst.
    apply IH in Hrest as (ckpts & Hckpts & Hall).
    exists (ckpt :: ckpts). split.
    + simpl. unfold Load.bind at 1. rewrite Hload.
      unfold Load.bind. rewrite Hckpts. done.
    + constructor; [|done]. unfold Load.checkpoint_model in Hd.
      destruct (ema ckpt) as [m|]; [left; congruence|].
      destruct (model ckpt) as [m|]; [right; split; congruence|discriminate].
Qed.

(** The loop "Compatibility updates" leaves the Ensemble itself as it
    is. *)
Lemma attempt_load_update_Ensemble (inplace : value) (a : gmap string value) :
  Load.attempt_load_update inplace EnsembleC a = Ok a.
Proof. by rewrite attempt_load_update_run. Qed.

(** C1, as amended.  Let the first loop of [attempt_load] complete: every
    checkpoint is read and its model prepared.  Then the models it has
    appended are, weight by weight and in order, the models that the
    checkpoints read by [torch_safe_load] hold, each prepared (path,
    stride, [fuse], [eval]) and then updated by the loop over the modules,
    which completes.  For exactly one weight the call returns that model
    itself, not the Ensemble that holds it.  For two or more weights
    whose models carry names, an int nc, yaml and a non-empty stride
    tensor, the call raises AssertionError when the class counts differ
    from that of the first model, and otherwise returns an Ensemble of
    exactly these models whose [forward] on [x] gives the pair of
    [torch.cat], along dimension 1, of the first output of each member on
    [x], and [None]. *)
Theorem attempt_load_returns (weights : weights_arg) (device inplace : value)
    (fuse : bool) (st st1 : Load.state world) (model0 : nn_module) :
  attempt_load_members weights fuse Ensemble.init (weights_list weights) st
  = (Ok model0, st1) ->
  exists (ckpts : list checkpoint) (vs : list nn_module),
    checkpoints (weights_list weights) st = (Ok ckpts, st1) /\
    length vs = length (weights_list weights) /\
    Forall2 (fun ckpt v =>
               exists d m,
                 holds ckpt d /\
                 Load.attempt_load_prepare fuse_method weights fuse d = Ok m /\
                 for_modules (Load.attempt_load_update inplace) m = Ok v)
            ckpts vs /\
    attempt_load_models weights inplace fuse st = (Ok (NN EnsembleC ∅ vs), st1) /\
    (forall v, vs = [v] ->
               attempt_load weights device inplace fuse st = (Ok v, st1)) /\
    (forall first rest,
        vs = first :: rest -> rest <> [] -> Forall Load.detection_model vs ->
        let out := attempt_load weights device inplace fuse st in
        (~ Forall (fun m => Load.nc_of m = Load.nc_of first) vs ->
         out.1 = Raise AssertionError) /\
        (Forall (fun m => Load.nc_of m = Load.nc_of first) vs ->
         exists a,
           out.1 = Ok (NN EnsembleC a vs) /\
           forall x augment profile visualize outs,
             Forall2 (fun m o => exists more,
                          call m x augment profile visualize = Ok (o :: more))
                     vs outs ->
             Ensemble.forward tensor call cat (NN EnsembleC a vs)
                              x augment profile visualize
             = (y <- cat outs 1%Z ;; Ok (y, VNone)))).
Proof.
  intros Hmem.
  destruct (attempt_load_updates_total inplace model0) as [model Hupd].
  assert (attempt_load_models weights inplace fuse st = (Ok model, st1)) as Hmodels.
  { unfold Load.attempt_load_models, Load.bind, Load.lift. by rewrite Hmem, Hupd. }
  apply attempt_load_members_Ok in Hmem as (Hc0 & Ha0 & ds & ms & Hds & Hch0 & Hprep).
  pose proof (deserialized_length _ _ _ _ _ _ _ Hds) as Hlen.
  apply deserialized_checkpoints in Hds as (ckpts & Hckpts & Hholds).
  apply for_modules_Ok in Hupd as (Hc & Ha & Hch).
  simpl in Hch0. rewrite Hch0 in Hch.
  rewrite Hc0, Ha0 in Ha. simpl in Ha. rewrite attempt_load_update_Ensemble in Ha.
  destruct model as [c a vs]. simpl in Hc, Ha, Hch.
  rewrite Hc0 in Hc. simpl in Hc. subst c. injection Ha as <-.
  assert (length vs = length (weights_list weights)) as Hvs.
  { apply Forall2_length in Hch, Hprep. congruence. }
  exists ckpts, vs. split_and!; [done|done| |done| |].
  - pose proof (Forall2_chain _ _ _ _ _ Hholds (Forall2_chain _ _ _ _ _ Hprep Hch)) as H.
    eapply Forall2_impl; [exact H|]. simpl.
    intros ckpt v (d & Hd & m & Hm & Hv). eauto.
  - intros v ->. unfold Load.attempt_load, Load.bind. rewrite Hmodels. done.
  - intros first rest -> Hrest Hwf. cbv zeta.
    destruct (ensemble_attrs_run (NN EnsembleC ∅ (first :: rest)) first rest eq_refl Hwf)
      as (i & widest & vn & vy & t & _ & _ & _ & _ & _ & Hrun).
    assert ((attempt_load weights device inplace fuse st).1
            = Load.ensemble_attrs (NN EnsembleC ∅ (first :: rest))) as ->.
    { unfold Load.attempt_load, Load.bind at 1. rewrite Hmodels.
      unfold Load.attempt_load_return. cbn [children].
      destruct rest as [|second rest]; [done|]. done. }
    rewrite Hrun.
    assert (forallb (fun m => (Load.nc_of first =? Load.nc_of m)%Z) (first :: rest) = true
            <-> Forall (fun m => Load.nc_of m = Load.nc_of first) (first :: rest)) as Hsame.
    { rewrite forallb_forall, Forall_forall. split; intros H m Hm.
      - symmetry. apply Z.eqb_eq, H. by apply list_elem_of_In.
      - apply Z.eqb_eq. symmetry. apply H. by apply list_elem_of_In. }
    destruct (forallb _ (first :: rest)) eqn:Hb.
    + split; [intros Hn; destruct Hn; by apply Hsame|].
      intros _. eexists. split; [reflexivity|].
      intros x augment profile visualize outs Hout.
      by apply Ensemble_forward_outputs.
    + split; [done|]. intros Hall. apply Hsame in Hall. discriminate.
Qed.
End LoadReturns.



(** ** The statements on concrete inputs *)

Lemma Example_models_ab :
  Example.models Example.weights_ab
  = (Ok Example.models_ab, Example.loaded ["a.pt"; "b.pt"]).
Proof. vm_compute. reflexivity. Qed.

Lemma Example_models_ac :
  Example.models Example.weights_ac
  = (Ok Example.models_ac, Example.loaded ["a.pt"; "c.pt"]).
Proof. vm_compute. reflexivity. Qed.

Lemma Example_run_a :
  Example.attempt_load (Path "a.pt") VNone (VBool true) true Example.start
  = (Ok Example.model_a, Example.loaded ["a.pt"]).
Proof. vm_compute. reflexivity. Qed.

Lemma Example_run_c :
  Example.attempt_load (Path "c.pt") VNone (VBool true) true Example.start
  = (Ok Example.model_c, Example.loaded ["c.pt"]).
Proof. vm_compute. reflexivity. Qed.

Lemma Example_run_ab :
  Example.attempt_load Example.weights_ab VNone (VBool true) true Example.start
  = (Ok Example.ensemble_ab,
     Load.Build_state [] (Load.trace (Example.loaded ["a.pt"; "b.pt"])
                          ++ [PrintEnsemble Example.weights_ab])).
Proof. vm_compute. reflexivity. Qed.

Lemma Example_detection_models :
  Forall Load.detection_model
         [Example.member_ab_a; Example.member_ab_b; Example.member_ac_a; Example.member_ac_c].
Proof.
  repeat apply Forall_cons_2; [| | | |constructor];
    (split_and!; [eexists | | eexists | eexists _, _]; vm_compute; reflexivity).
Qed.

(** C3 on the code.  Loading a checkpoint whose model ends in a Detect head
    with [nl = 3] and a tensor as [anchor_grid]: after [attempt_load] the
    head still has the tensor, not a list of three zero tensors. *)
Theorem attempt_load_anchor_grid_unchanged :
  exists st' h,
    Example.attempt_load (Path "a.pt") VNone (VBool true) true Example.start
    = (Ok Example.model_a, st') /\
    last (modules Example.model_a) = Some h /\
    cls h = Detect /\
    attrs h !! "nl" = Some (VInt 3) /\
    attrs h !! "anchor_grid" = Some (VTensor [10; 13; 16; 30]%Z) /\
    attrs h !! "anchor_grid" <> Some (VList (repeat (VTensor [0%Z]) 3)).
Proof.
  eexists _, _. split; [exact Example_run_a|].
  split; [vm_compute; reflexivity|].
  split_and!; [reflexivity | reflexivity | reflexivity | discriminate].
Qed.

(** No module has its [anchor_grid] touched by the loop of [attempt_load],
    whatever its class. *)
Lemma attempt_load_update_anchor_grid (inplace : value) (t : Class)
    (a : gmap string value) :
  exists a', Load.attempt_load_update inplace t a = Ok a' /\
             a' !! "anchor_grid" = a !! "anchor_grid".
Proof.
  rewrite attempt_load_update_run. eexists. split; [reflexivity|].
  repeat match goal with
         | |- context [if ?b then _ else _] => destruct b
         end; by rewrite ?lookup_insert_ne.
Qed.

Lemma Example_members_ab :
  Load.attempt_load_members Example.world Example.attempt_download Example.torch_load
    Example.check_requirements Example.fuse_method Example.weights_ab true
    Ensemble.init (weights_list Example.weights_ab) Example.start
  = (Ok Example.members_ab, Example.loaded ["a.pt"; "b.pt"]).
Proof. vm_compute. reflexivity. Qed.

(** C1, as amended, on two weights of one class count.  The checkpoints
    of a.pt and b.pt are read, the call returns the Ensemble of their two
    models, with their classes, class count and strides, and its forward
    on an input is the concatenation of the two first outputs. *)
Lemma attempt_load_returns_witness :
  exists a,
    Load.checkpoints Example.world Example.attempt_download Example.torch_load
      Example.check_requirements ["a.pt"; "b.pt"]%string Example.start
    = (Ok [Example.ckpt_of (Example.yolo 80 (Some [8; 16; 32]%Z));
           Example.ckpt_of (Example.yolo 80 (Some [8; 16; 32; 64]%Z))],
       Example.loaded ["a.pt"; "b.pt"]) /\
    (Example.attempt_load Example.weights_ab VNone (VBool true) true Example.start).1
    = Ok (NN EnsembleC a [Example.member_ab_a; Example.member_ab_b]) /\
    map cls (modules Example.member_ab_a) = [ModelC; ConvC; SiLU; Upsample; Detect] /\
    attrs Example.member_ab_a !! "nc" = Some (VInt 80) /\
    attrs Example.member_ab_a !! "stride" = Some (VTensor [8; 16; 32]%Z) /\
    attrs Example.member_ab_b !! "stride" = Some (VTensor [8; 16; 32; 64]%Z) /\
    Ensemble.forward Z Example.call Example.cat
      (NN EnsembleC a [Example.member_ab_a; Example.member_ab_b]) 1%Z false false false
    = Ok (162%Z, VNone).
Proof.
  destruct (attempt_load_returns Example.attempt_download Example.torch_load
              Example.check_requirements Example.fuse_method
              Example.call Example.cat Example.weights_ab VNone (VBool true) true
              Example.start (Example.loaded ["a.pt"; "b.pt"]) Example.members_ab
              Example_members_ab)
    as (ckpts & vs & _ & _ & _ & Hmodels & _ & Hmany).
  pose proof (eq_trans (eq_sym Hmodels) Example_models_ab) as E.
  assert (vs = [Example.member_ab_a; Example.member_ab_b]) as ->
    by (unfold Example.models_ab in E; congruence).
  pose proof Example_detection_models as Hwf.
  apply Forall_cons_1 in Hwf as [Ha Hwf]. apply Forall_cons_1 in Hwf as [Hb _].
  destruct (Hmany Example.member_ab_a [Example.member_ab_b] eq_refl
              ltac:(discriminate)
              (Forall_cons_2 _ _ _ Ha (Forall_cons_2 _ _ _ Hb (Forall_nil_2 _))))
    as [_ Hsame].
  destruct Hsame as (a & Hout & Hforward).
  { repeat apply Forall_cons_2; [vm_compute; reflexivity ..|apply Forall_nil_2]. }
  exists a. split_and!.
  - vm_compute. reflexivity.
  - exact Hout.
  - vm_compute. reflexivity.
  - vm_compute. reflexivity.
  - vm_compute. reflexivity.
  - vm_compute. reflexivity.
  - rewrite (Hforward 1%Z false false false [81; 81]%Z); [reflexivity|].
    repeat constructor; eexists; vm_compute; reflexivity.
Defined.

(** C1 as stated fails for two weights: the checkpoints of a.pt and c.pt
    are read and the first loop completes, yet the call raises
    AssertionError, the two models having 80 and 20 classes. *)
Lemma attempt_load_returns_counterexample :
  returns (Load.checkpoints Example.world Example.attempt_download Example.torch_load
             Example.check_requirements ["a.pt"; "c.pt"]%string Example.start).1 = true /\
  returns (Load.attempt_load_members Example.world Example.attempt_download
             Example.torch_load Example.check_requirements Example.fuse_method
             Example.weights_ac true Ensemble.init ["a.pt"; "c.pt"]%string
             Example.start).1 = true /\
  (Example.attempt_load Example.weights_ac VNone (VBool true) true Example.start).1
  = Raise AssertionError.
Proof. split_and!; vm_compute; reflexivity. Qed.

(** C2 on one weight: the checkpoint of a.pt loads, and the call ends in
    the NameError. *)
Lemma attempt_load_weights_raises_witness :
  (Example.attempt_load_weights (Path "a.pt") VNone (VBool true) true Example.start).1
  = Raise (NameError "Detect").
Proof.
  destruct (attempt_load_weights_raises Example.attempt_download Example.torch_load
              Example.check_requirements Example.fuse_method
              [(KStr "imgsz", VInt 640)] ["imgsz"%string]
              (Path "a.pt") VNone (VBool true) true Example.start) as [Hraise _].
  unfold Example.attempt_load_weights.
  erewrite Hraise; [reflexivity|].
  vm_compute. reflexivity.
Defined.

(** C4 on two weights: one whose first load misses a module that the
    installer provides, and one whose loads both miss a module. *)
Lemma torch_safe_load_spec_witness :
  returns (Example.torch_safe_load "omega.pt" Example.start).1 = true /\
  Load.required (Load.trace (Example.torch_safe_load "omega.pt" Example.start).2)
  = ["omegaconf"%string] /\
  (Example.torch_safe_load "pickle.pt" Example.start).1
  = Raise (ModuleNotFoundError "dill") /\
  Load.loads (Load.trace (Example.torch_safe_load "pickle.pt" Example.start).2) = 2.
Proof.
  destruct (torch_safe_load_spec Example.attempt_download Example.torch_load
              Example.check_requirements "omega.pt" Example.start)
    as (rest1 & Htrace1 & Hreq1 & _ & _ & Hretry1 & _).
  destruct (torch_safe_load_spec Example.attempt_download Example.torch_load
              Example.check_requirements "pickle.pt" Example.start)
    as (rest2 & Htrace2 & _ & Hloads2 & _ & Hretry2 & _).
  destruct (Hretry1 "omegaconf"%string ltac:(vm_compute; reflexivity)) as (_ & Hout1 & _).
  destruct (Hretry2 "dill"%string ltac:(vm_compute; reflexivity)) as (_ & Hout2 & _).
  unfold Example.torch_safe_load.
  split_and!.
  - rewrite Hout1. reflexivity.
  - rewrite Htrace1. simpl. apply Hreq1. vm_compute. reflexivity.
  - rewrite Hout2. reflexivity.
  - rewrite Htrace2. change (S (Load.loads rest2) = 2). f_equal.
    apply Hloads2. eexists. vm_compute. reflexivity.
Defined.

(** C5 on a checkpoint without a stride: the returned model has [[32.]]. *)
Lemma attempt_load_stride_witness :
  attrs (Example.yolo 20 None) !! "stride" = None /\
  attrs Example.model_c !! "stride" = Some (VTensor [32%Z]).
Proof.
  assert (attrs (Example.yolo 20 None) !! "stride" = None) as Hnone
    by (vm_compute; reflexivity).
  split; [exact Hnone|].
  assert (forall m f, Example.fuse_method m = Some f ->
                      attrs f !! "stride" = attrs m !! "stride") as Hfuse.
  { intros m f Hf. injection Hf as ->. reflexivity. }
  destruct (attempt_load_stride Example.attempt_download Example.torch_load
              Example.check_requirements Example.fuse_method
              (Path "c.pt") VNone (VBool true) true
              Example.start (Example.loaded ["c.pt"]) Example.model_c
              Hfuse Example_run_c)
    as (ds & st1 & Hds & Hall).
  assert (Load.deserialized Example.world Example.attempt_download Example.torch_load
            Example.check_requirements (weights_list (Path "c.pt")) Example.start
          = (Ok [Example.yolo 20 None], Example.loaded ["c.pt"])) as Hd
    by (vm_compute; reflexivity).
  rewrite Hd in Hds. injection Hds as <- _.
  apply Forall2_cons_1 in Hall as [Hone _].
  rewrite Hnone in Hone. exact Hone.
Defined.

(** C6 on two pairs of weights: a.pt and b.pt share their class count and
    the call returns; a.pt and c.pt do not, and the call raises
    AssertionError. *)
Lemma attempt_load_ensemble_witness :
  returns (Example.attempt_load Example.weights_ab VNone (VBool true) true
                                Example.start).1 = true /\
  (Example.attempt_load Example.weights_ac VNone (VBool true) true
                        Example.start).1 = Raise AssertionError.
Proof.
  pose proof Example_detection_models as Hwf.
  apply Forall_cons_1 in Hwf as [Ha Hwf]. apply Forall_cons_1 in Hwf as [Hb Hwf].
  apply Forall_cons_1 in Hwf as [Ha' Hwf]. apply Forall_cons_1 in Hwf as [Hc _].
  split.
  - destruct (attempt_load_ensemble Example.attempt_download Example.torch_load
                Example.check_requirements Example.fuse_method
                Example.weights_ab VNone (VBool true) true
                Example.start _ Example.models_ab Example_models_ab)
      as (first & Hfirst & _ & Hret & _).
    + simpl. lia.
    + by repeat apply Forall_cons_2.
    + injection Hfirst as <-. apply Hret.
      repeat apply Forall_cons_2; [vm_compute; reflexivity ..|constructor].
  - destruct (attempt_load_ensemble Example.attempt_download Example.torch_load
                Example.check_requirements Example.fuse_method
                Example.weights_ac VNone (VBool true) true
                Example.start _ Example.models_ac Example_models_ac)
      as (first & Hfirst & Hassert & _ & _).
    + simpl. lia.
    + by repeat apply Forall_cons_2.
    + injection Hfirst as <-. apply Hassert.
      intros Hall. apply Forall_cons_1 in Hall as [_ Hall].
      apply Forall_cons_1 in Hall as [Hall _]. vm_compute in Hall. discriminate.
Defined.

(** C7 on a weighted layer for three inputs, over integers: the fourth
    input plays no part. *)
Lemma Sum_forward_spec_witness :
  Sum.forward Z.add Z.mul (fun z => z) 2%Z Example.sum_layer [10; 20; 30; 40]%Z
  = Ok (10 + 20 * (-1 * 2) + 30 * (-2 * 2))%Z.
Proof.
  destruct (Sum_forward_spec Z.add Z.mul (fun z => z) 2%Z (fun j => (- Z.of_nat j)%Z)
              3 Example.sum_layer [10; 20; 30; 40]%Z)
    as (x0 & xs & Htake & _ & _ & Hrun & _).
  - lia.
  - reflexivity.
  - reflexivity.
  - simpl. lia.
  - simpl in Htake. injection Htake as <- <-. rewrite Hrun. reflexivity.
Defined.

(** C8, as amended, on MixConv2d(4, 8, k=(1, 3)): each member gets four of
    the eight output channels, and four groups. *)
Lemma MixConv2d_groups_witness :
  exists self,
    MixConv2d.init (fun _ _ => []) 4 8 [1; 3]%Z 1 true = Ok self /\
    map MixConv2d.out_channels (MixConv2d.m self) = [4; 4]%Z /\
    Forall (fun conv => MixConv2d.groups conv = 4%Z) (MixConv2d.m self).
Proof.
  eexists. split; [vm_compute; reflexivity|]. split; [reflexivity|].
  pose proof (MixConv2d_groups (fun _ _ => []) 4 8 [1; 3]%Z 1 true _
                ltac:(vm_compute; reflexivity)) as Hall.
  apply Forall_cons_1 in Hall as [(_ & _ & H1) Hall].
  apply Forall_cons_1 in Hall as [(_ & _ & H2) _].
  repeat apply Forall_cons_2; [| |constructor].
  - apply H1; [lia|]. exists 1%Z. reflexivity.
  - apply H2; [lia|]. exists 1%Z. reflexivity.
Defined.

(** C8 as stated fails: MixConv2d(3, 2, k=(1, 3)) splits its two output
    channels one per kernel, and both member convolutions get
    [gcd(3, 1) = 1] group, not 3. *)
Lemma MixConv2d_groups_counterexample :
  exists self,
    MixConv2d.init (fun _ _ => []) 3 2 [1; 3]%Z 1 true = Ok self /\
    map MixConv2d.out_channels (MixConv2d.m self) = [1; 1]%Z /\
    map MixConv2d.groups (MixConv2d.m self) = [1; 1]%Z /\
    Forall (fun conv => MixConv2d.groups conv <> 3%Z) (MixConv2d.m self).
Proof.
  eexists. split; [vm_compute; reflexivity|].
  split_and!; [reflexivity|reflexivity|].
  repeat constructor; simpl; lia.
Qed.

(** The end point of the index grid for 33 kernels: float32 has 24 bits,
    so between 32 and 64 its values are 2^-18 apart, and 33 - 1E-6 rounds
    to 33. *)
Lemma float32_end_33 :
  MixConv2d.float32 (MixConv2d.float64 (33 - MixConv2d.float64 (1 # 1000000))) = 33%Q.
Proof. vm_compute. reflexivity. Qed.

(** C9 on the code: MixConv2d(1, 2, k) with 33 kernels puts index 33 on
    its second output channel, which no group counts; the channel counts
    add up to 1 while the batch norm is built for 2. *)
Theorem MixConv2d_equal_ch_33_kernels :
  exists self,
    MixConv2d.init (fun _ _ => []) 1 2 (repeat 3%Z 33) 1 true = Ok self /\
    map MixConv2d.out_channels (MixConv2d.m self) = 1%Z :: repeat 0%Z 32 /\
    MixConv2d.cat_channels self = 1%Z /\
    MixConv2d.bn self = 2%Z.
Proof.
  eexists. split; [vm_compute; reflexivity|].
  split_and!; reflexivity.
Qed.

(** Where the margin 1E-6 holds in float32 and where it is lost: up to 32
    kernels the end point stays below [n]; from 33 to 128 it is [n]. *)
Lemma float32_end_margin :
  forallb (fun n : nat =>
             Qle_bool (MixConv2d.float32
                         (MixConv2d.float64 (inject_Z (Z.of_nat n)
                                             - MixConv2d.float64 (1 # 1000000))))
                      (inject_Z (Z.of_nat n) - (1 # 2000000)))
          (seq 1 32) = true /\
  forallb (fun n : nat =>
             Qeq_bool (MixConv2d.float32
                         (MixConv2d.float64 (inject_Z (Z.of_nat n)
                                             - MixConv2d.float64 (1 # 1000000))))
                      (inject_Z (Z.of_nat n)))
          (seq 33 96) = true.
Proof. split; vm_compute; reflexivity. Qed.

(** * Further properties *)

(** ** check_class_names, further *)

Section ClassNamesMore.
Local Open Scope Z_scope.
Variable py_int : string -> option Z.
Variable human_name : value -> value.

Local Abbreviation check_class_names := (ClassNames.check_class_names py_int human_name).
Local Abbreviation int_keys := (ClassNames.int_keys py_int).
Local Abbreviation int_keys_from := (ClassNames.int_keys_from py_int).
Local Abbreviation all_int_keys := ClassNames.all_int_keys.
Local Abbreviation to_dict := ClassNames.to_dict.
Local Abbreviation imagenet_code := ClassNames.imagenet_code.

Lemma all_int_keys_of_ints (d' : list (Z * value)) :
  all_int_keys (map (fun kv => (KInt (fst kv), snd kv)) d') = Some d'.
Proof.
  induction d' as [|[z v] d' IH]; simpl; [done|]. by rewrite IH.
Qed.

(** What a dictionary has passed when [check_class_names] returns. *)
Lemma check_class_names_dict_Ok (d : list (key * value)) (r : value) :
  check_class_names (VDict d) = Ok r ->
  exists d' mx v0,
    (all_int_keys d = Some d' \/ (all_int_keys d = None /\ int_keys d = Ok d')) /\
    r = to_dict d' /\
    py_max (dict_keys d') = Some mx /\ mx < Z.of_nat (length d') /\
    dict_get 0 d' = Some v0 /\ imagenet_code v0 = false.
Proof.
  unfold ClassNames.check_class_names. simpl. intros H.
  apply rbind_Ok in H as (d' & Hd' & H).
  destruct (py_max (dict_keys d')) as [mx|] eqn:Hmx; [|discriminate].
  destruct (Z.leb_spec (Z.of_nat (length d')) mx) as [|Hlt]; [discriminate|].
  destruct (dict_get 0 d') as [v0|] eqn:H0; [|discriminate].
  destruct (imagenet_code v0) eqn:Himg; [discriminate|].
  inversion H; subst. exists d', mx, v0. split_and!; try done.
  destruct (all_int_keys d) as [d''|]; [left; congruence | right; done].
Qed.

Lemma check_class_names_ints_run (d' : list (Z * value)) (mx : Z) (v0 : value) :
  py_max (dict_keys d') = Some mx -> mx < Z.of_nat (length d') ->
  dict_get 0 d' = Some v0 -> imagenet_code v0 = false ->
  check_class_names (to_dict d') = Ok (to_dict d').
Proof.
  intros Hmx Hlt H0 Himg. unfold ClassNames.check_class_names, ClassNames.to_dict. simpl.
  rewrite all_int_keys_of_ints. simpl. rewrite Hmx.
  rewrite (proj2 (Z.leb_gt _ _) Hlt), H0, Himg. done.
Qed.

(** X1.  [check_class_names] is idempotent: whatever it returns, for a
    list, a dictionary or any other value, it returns unchanged when it
    is given that value again. *)
Theorem check_class_names_idempotent (names r : value) :
  check_class_names names = Ok r -> check_class_names r = Ok r.
Proof.
  intros H.
  assert (forall d, check_class_names (VDict d) = Ok r -> check_class_names r = Ok r) as Hdict.
  { intros d Hd. apply check_class_names_dict_Ok in Hd
      as (d' & mx & v0 & _ & -> & Hmx & Hlt & H0 & Himg).
    by eapply check_class_names_ints_run. }
  destruct names as [| b | z | s | t | l | d | l | c | id];
    try (inversion H; subst; reflexivity).
  - apply (Hdict (enumerate l)). exact H.
  - by apply (Hdict d).
Qed.

Lemma dict_keys_set {K V} `{EqDecision K} (k : K) (v : V) (d : list (K * V)) :
  dict_keys (dict_set k v d)
  = if bool_decide (k ∈ dict_keys d) then dict_keys d else dict_keys d ++ [k].
Proof.
  induction d as [|[k' v'] d IH].
  - rewrite bool_decide_eq_false_2; [done|]. apply not_elem_of_nil.
  - cbn [dict_set]. destruct (decide (k = k')) as [->|Hne].
    + clear IH. rewrite bool_decide_eq_true_2; [done|]. constructor.
    + change (dict_keys ((k', v') :: dict_set k v d))
        with (k' :: dict_keys (dict_set k v d)).
      change (dict_keys ((k', v') :: d)) with (k' :: dict_keys d).
      rewrite IH. destruct (decide (k ∈ dict_keys d)) as [Hin|Hin].
      * rewrite !bool_decide_eq_true_2; [done| by constructor | done].
      * rewrite !bool_decide_eq_false_2; [done| | done].
        intros Hin'. inversion Hin'; subst; done.
Qed.

Lemma dict_set_NoDup {K V} `{EqDecision K} (k : K) (v : V) (d : list (K * V)) :
  NoDup (dict_keys d) -> NoDup (dict_keys (dict_set k v d)).
Proof.
  intros Hnd. rewrite dict_keys_set. case_bool_decide as Hin; [done|].
  apply NoDup_app. split_and!; [done| |apply NoDup_singleton].
  intros x Hx Hx'. apply list_elem_of_singleton in Hx'. by subst.
Qed.

(** The comprehension over the items never builds a key twice. *)
Lemma int_keys_from_NoDup (d : list (key * value)) (acc d' : list (Z * value)) :
  NoDup (dict_keys acc) -> int_keys_from acc d = Ok d' -> NoDup (dict_keys d').
Proof.
  revert acc. induction d as [|[k v] d IH]; intros acc Hacc H; simpl in H.
  - by inversion H; subst.
  - apply rbind_Ok in H as (z & _ & H). eapply IH; [|exact H].
    by apply dict_set_NoDup.
Qed.

(** Distinct integers below [n], [n] of them and none negative, are
    [0 .. n-1] in some order. *)
Lemma range_Permutation (l : list Z) :
  NoDup l -> Forall (fun z => 0 <= z < Z.of_nat (length l)) l ->
  l ≡ₚ map Z.of_nat (seq 0 (length l)).
Proof.
  intros Hnd Hall. apply submseteq_length_Permutation.
  - apply NoDup_submseteq; [done|]. intros z Hz.
    rewrite Forall_forall in Hall. specialize (Hall z Hz).
    apply list_elem_of_In, in_map_iff. exists (Z.to_nat z). split; [lia|].
    apply in_seq. lia.
  - by rewrite length_map, length_seq.
Qed.

Lemma py_max_upper (l : list Z) (mx z : Z) :
  py_max l = Some mx -> z ∈ l -> z <= mx.
Proof.
  destruct l as [|x l]; [discriminate|]. simpl. intros H Hz. inversion H; subst.
  inversion Hz; subst; [apply fold_max_ge | by apply fold_max_upper].
Qed.

(** X2.  A dictionary that [check_class_names] accepts comes back with
    integer keys that are distinct, have 0 among them and are all below
    the number of entries.  When none of them is negative they are
    [0 .. n-1] in some order; a negative key is not rejected. *)
Theorem check_class_names_keys (d : list (key * value)) (r : value) :
  NoDup (dict_keys d) ->
  check_class_names (VDict d) = Ok r ->
  exists d' : list (Z * value),
    int_keys d = Ok d' /\ r = to_dict d' /\
    NoDup (dict_keys d') /\
    0 ∈ dict_keys d' /\
    Forall (fun z => z < Z.of_nat (length d')) (dict_keys d') /\
    (Forall (fun z => 0 <= z) (dict_keys d') ->
     dict_keys d' ≡ₚ map Z.of_nat (seq 0 (length d'))).
Proof.
  intros Hnd H.
  apply check_class_names_dict_Ok in H
    as (d' & mx & v0 & Hpath & -> & Hmx & Hlt & H0 & _).
  assert (int_keys d = Ok d') as Hk.
  { destruct Hpath as [Hall|[_ Hk]]; [by apply int_keys_all_int|done]. }
  assert (NoDup (dict_keys d')) as Hnd'.
  { eapply (int_keys_from_NoDup d []); [constructor|exact Hk]. }
  assert (Forall (fun z => z < Z.of_nat (length d')) (dict_keys d')) as Hup.
  { apply Forall_forall. intros z Hz. pose proof (py_max_upper _ _ _ Hmx Hz). lia. }
  exists d'. split_and!; try done.
  - destruct (decide (0 ∈ dict_keys d')) as [|Hn]; [done|].
    apply dict_get_None in Hn. congruence.
  - intros Hpos.
    assert (length (dict_keys d') = length d') as Hlen by apply length_map.
    rewrite <- Hlen. apply range_Permutation; [done|].
    rewrite Hlen. apply Forall_forall. intros z Hz.
    rewrite Forall_forall in Hpos, Hup. split; [by apply Hpos | by apply Hup].
Qed.

(** X3.  When entry 0 is an ImageNet code, a string that starts with
    [n0], the call raises NameError for [yaml_load], a name the module
    does not bind: for a list, and for a dictionary that has passed the
    check of its indices. *)
Theorem check_class_names_imagenet :
  (forall (l : list value) (s : string),
      head l = Some (VStr s) -> String.prefix "n0" s = true ->
      check_class_names (VList l) = Raise (NameError "yaml_load")) /\
  (forall (d : list (key * value)) (d' : list (Z * value)) (mx : Z) (s : string),
      NoDup (dict_keys d) -> int_keys d = Ok d' ->
      py_max (dict_keys d') = Some mx -> mx < Z.of_nat (length d') ->
      dict_get 0 d' = Some (VStr s) -> String.prefix "n0" s = true ->
      check_class_names (VDict d) = Raise (NameError "yaml_load")).
Proof.
  assert (forall (d : list (key * value)) (d' : list (Z * value)) (mx : Z) (s : string),
      NoDup (dict_keys d) -> int_keys d = Ok d' ->
      py_max (dict_keys d') = Some mx -> mx < Z.of_nat (length d') ->
      dict_get 0 d' = Some (VStr s) -> String.prefix "n0" s = true ->
      check_class_names (VDict d) = Raise (NameError "yaml_load")) as Hdict.
  { intros d d' mx s Hnd Hk Hmx Hlt H0 Hs.
    rewrite (check_class_names_dict_run py_int human_name d d' Hnd Hk), Hmx.
    rewrite (proj2 (Z.leb_gt _ _) Hlt), H0. simpl. by rewrite Hs. }
  split; [|exact Hdict].
  intros l s Hhd Hs. destruct l as [|v l]; [discriminate|]. simpl in Hhd.
  inversion Hhd; subst v.
  destruct (enumerate_from_all_int (VStr s :: l) 0) as (d' & Hall & Hlen & _ & Hmax).
  destruct (decide (VStr s :: l = [])) as [|_]; [discriminate|].
  unfold ClassNames.check_class_names. simpl isinstance. cbv iota.
  unfold enumerate. rewrite Hall. cbn [rbind]. rewrite Hmax, Hlen.
  destruct (Z.leb_spec (Z.of_nat (length (VStr s :: l)))
                       (0 + Z.of_nat (length (VStr s :: l)) - 1)) as [Hle|_]; [lia|].
  rewrite <- dict_get_int_keys, <- (all_int_keys_map _ _ Hall).
  assert (dict_get (KInt 0) (enumerate_from 0 (VStr s :: l)) = Some (VStr s)) as ->
    by exact (enumerate_from_lookup (VStr s :: l) 0 0 (VStr s) eq_refl).
  simpl. by rewrite Hs.
Qed.

Lemma all_int_keys_str (d : list (key * value)) (s : string) (v : value) :
  (KStr s, v) ∈ d -> all_int_keys d = None.
Proof.
  induction d as [|[[z|s'] v'] d IH]; intros Hin; simpl.
  - inversion Hin.
  - inversion Hin; subst. by rewrite IH.
  - done.
Qed.

Lemma int_keys_from_bad (d : list (key * value)) (acc : list (Z * value))
    (s : string) (v : value) :
  (KStr s, v) ∈ d -> py_int s = None -> int_keys_from acc d = Raise ValueError.
Proof.
  revert acc. induction d as [|[k v'] d IH]; intros acc Hin Hs; [inversion Hin|].
  simpl. inversion Hin; subst.
  - simpl. by rewrite Hs.
  - destruct k as [z|s']; simpl.
    + by apply IH.
    + destruct (py_int s'); simpl; [by apply IH|done].
Qed.

(** X4.  A dictionary with a string key that [int] does not accept makes
    the call raise ValueError, wherever the key stands and whatever the
    other keys are. *)
Theorem check_class_names_bad_key (d : list (key * value)) (s : string) (v : value) :
  (KStr s, v) ∈ d -> py_int s = None ->
  check_class_names (VDict d) = Raise ValueError.
Proof.
  intros Hin Hs. unfold ClassNames.check_class_names. simpl.
  rewrite (all_int_keys_str d s v Hin).
  unfold ClassNames.int_keys. by rewrite (int_keys_from_bad d [] s v Hin Hs).
Qed.
End ClassNamesMore.

(** X1 on the names of two classes under string keys: what the call
    returns for them is returned as it is. *)
Lemma check_class_names_idempotent_witness :
  ClassNames.check_class_names Decimal.py_int id
    (VDict [(KInt 1, VStr "car"); (KInt 0, VStr "person")])
  = Ok (VDict [(KInt 1, VStr "car"); (KInt 0, VStr "person")]).
Proof.
  apply (check_class_names_idempotent Decimal.py_int id
           (VDict [(KStr "1", VStr "car"); (KStr "0", VStr "person")])).
  reflexivity.
Defined.

(** X2 on the same dictionary: its keys 1 and 0 are those of two classes,
    in another order. *)
Lemma check_class_names_keys_witness :
  [1; 0]%Z ≡ₚ map Z.of_nat (seq 0 2).
Proof.
  destruct (check_class_names_keys Decimal.py_int id
              [(KStr "1", VStr "car"); (KStr "0", VStr "person")]
              (VDict [(KInt 1, VStr "car"); (KInt 0, VStr "person")]))
    as (d' & Hk & _ & _ & _ & _ & Hperm).
  - apply (bool_decide_unpack _). vm_compute. reflexivity.
  - reflexivity.
  - assert (d' = [(1, VStr "car"); (0, VStr "person")]%Z) as ->
      by (vm_compute in Hk; congruence).
    apply Hperm.
    apply Forall_cons_2; [simpl; lia|].
    apply Forall_cons_2; [simpl; lia|]. apply Forall_nil_2.
Defined.

(** X3 on two ImageNet codes, as a list and under a string key. *)
Lemma check_class_names_imagenet_witness :
  ClassNames.check_class_names Decimal.py_int id
    (VList [VStr "n01440764"; VStr "n01443537"])
  = Raise (NameError "yaml_load") /\
  ClassNames.check_class_names Decimal.py_int id
    (VDict [(KStr "0", VStr "n01440764")])
  = Raise (NameError "yaml_load").
Proof.
  destruct (check_class_names_imagenet Decimal.py_int id) as [Hlist Hdict].
  split.
  - apply (Hlist _ "n01440764"%string); reflexivity.
  - apply (Hdict _ [(0%Z, VStr "n01440764")] 0%Z "n01440764"%string);
      try reflexivity.
    apply (bool_decide_unpack _). vm_compute. reflexivity.
Defined.

(** X4 on a dictionary whose second key is the word car. *)
Lemma check_class_names_bad_key_witness :
  ClassNames.check_class_names Decimal.py_int id
    (VDict [(KInt 0, VStr "person"); (KStr "car", VStr "car")])
  = Raise ValueError.
Proof.
  apply (check_class_names_bad_key Decimal.py_int id _ "car"%string (VStr "car")).
  - apply list_elem_of_In. simpl. tauto.
  - reflexivity.
Defined.

(** ** MixConv2d, further *)

Section MixConv2dMore.
Local Open Scope Z_scope.
Variable lstsq_channels : Z -> list Z -> list Z.

Local Abbreviation init := (MixConv2d.init lstsq_channels).
Local Abbreviation zsum := (fold_right Z.add 0).

(** The member built for kernel [k] and channel count [c_]. *)
Local Abbreviation member c1 s :=
  (fun kc : Z * Z =>
     let (k, c_) := kc in
     {| MixConv2d.in_channels := c1; MixConv2d.out_channels := c_;
        MixConv2d.kernel_size := k; MixConv2d.stride := s;
        MixConv2d.padding := k / 2; MixConv2d.groups := Z.gcd c1 c_;
        MixConv2d.bias := false |}).

Lemma init_Ok (c1 c2 : Z) (k : list Z) (s : Z) (equal_ch : bool) (self : MixConv2d.t) :
  init c1 c2 k s equal_ch = Ok self ->
  exists c_,
    (if equal_ch then MixConv2d.equal_ch_channels (length k) c2
     else Ok (lstsq_channels c2 k)) = Ok c_ /\
    MixConv2d.m self = map (member c1 s) (combine k c_) /\
    MixConv2d.bn self = c2 /\ MixConv2d.act self = SiLU.
Proof.
  unfold MixConv2d.init. intros H.
  apply rbind_Ok in H as (c_ & Hc & H). injection H as <-.
  by exists c_.
Qed.

Lemma map_fst_combine {A B} (l : list A) (l' : list B) :
  length l = length l' -> map fst (combine l l') = l.
Proof.
  revert l'. induction l as [|a l IH]; intros [|b l'] Hlen; simpl in *; try done.
  f_equal. apply IH. lia.
Qed.

Lemma equal_ch_channels_steps (n : nat) (c2 : Z) (c_ : list Z) :
  MixConv2d.equal_ch_channels n c2 = Ok c_ -> 0 <= c2.
Proof.
  unfold MixConv2d.equal_ch_channels, MixConv2d.linspace.
  destruct (Z.ltb_spec c2 0); [discriminate|done].
Qed.

(** X7.  With [equal_ch=True] the constructor returns for non-negative [c2]
    only, and then builds one convolution per kernel, in the order of
    [k], each with stride [s], padding [k // 2], no bias and a
    non-negative number of output channels; together the members give at
    most the [c2] channels the batch norm is built for. *)
Theorem MixConv2d_equal_ch_members (c1 c2 : Z) (k : list Z) (s : Z)
    (self : MixConv2d.t) :
  init c1 c2 k s true = Ok self ->
  0 <= c2 /\
  map MixConv2d.kernel_size (MixConv2d.m self) = k /\
  Forall (fun conv =>
            MixConv2d.stride conv = s /\
            MixConv2d.padding conv = MixConv2d.kernel_size conv / 2 /\
            MixConv2d.bias conv = false /\
            0 <= MixConv2d.out_channels conv)
         (MixConv2d.m self) /\
  MixConv2d.cat_channels self <= MixConv2d.bn self /\
  MixConv2d.bn self = c2.
Proof.
  intros H. apply init_Ok in H as (c_ & Hc & Hm & Hbn & _).
  pose proof (equal_ch_channels_steps _ _ _ Hc) as Hc2.
  apply equal_ch_channels_bound in Hc as (Hlen & Hpos & Hsum).
  assert (map MixConv2d.out_channels (MixConv2d.m self) = c_) as Hout.
  { rewrite Hm, map_map.
    rewrite <- (map_snd_combine k c_) at 2 by done.
    apply map_ext. by intros []. }
  split_and!; [done| | | |done].
  - rewrite Hm, map_map.
    rewrite <- (map_fst_combine k c_) at 2 by done.
    apply map_ext. by intros [].
  - apply Forall_forall. intros conv Hconv.
    assert (0 <= MixConv2d.out_channels conv) as Hnonneg.
    { rewrite Forall_forall in Hpos. apply Hpos. rewrite <- Hout.
      apply list_elem_of_In, in_map, list_elem_of_In, Hconv. }
    rewrite Hm in Hconv. apply list_elem_of_In, in_map_iff in Hconv as ([k0 c0] & <- & _).
    done.
  - unfold MixConv2d.cat_channels. rewrite Hout, Hbn. done.
Qed.

(** X8.  For a positive number of input channels, whichever way the channels
    are split: every member's group count is positive and divides both its
    input and its output channels, which is what [nn.Conv2d] asks of
    [groups]. *)
Theorem MixConv2d_groups_divide (c1 c2 : Z) (k : list Z) (s : Z) (equal_ch : bool)
    (self : MixConv2d.t) :
  0 < c1 ->
  init c1 c2 k s equal_ch = Ok self ->
  Forall (fun conv =>
            0 < MixConv2d.groups conv <= c1 /\
            (MixConv2d.groups conv | MixConv2d.in_channels conv) /\
            (MixConv2d.groups conv | MixConv2d.out_channels conv))
         (MixConv2d.m self).
Proof.
  intros Hc1 H. apply init_Ok in H as (c_ & _ & Hm & _).
  rewrite Hm. apply Forall_forall. intros conv Hconv.
  apply list_elem_of_In, in_map_iff in Hconv as ([k0 c0] & <- & _). simpl.
  pose proof (Z.gcd_nonneg c1 c0) as Hnonneg.
  pose proof (Z.gcd_divide_l c1 c0) as Hl.
  pose proof (Z.gcd_divide_r c1 c0) as Hr.
  assert (Z.gcd c1 c0 <> 0) as Hne.
  { intros E. apply Z.gcd_eq_0_l in E. lia. }
  split_and!; [lia| |done|done].
  apply Z.divide_pos_le; [lia|done].
Qed.
End MixConv2dMore.

(** ** Ensemble.forward, further *)

Section EnsembleMore.
Context {tensor : Type}.
Variable call : nn_module -> tensor -> bool -> bool -> bool -> result (list tensor).
Variable cat : list tensor -> Z -> result tensor.

Local Abbreviation forward := (Ensemble.forward tensor call cat).

(** The comprehension over the members stops at the first member that
    raises or returns no output. *)
Lemma forward_outputs_app (x : tensor) (augment profile visualize : bool)
    (pre post : list nn_module) (m : nn_module) (e : exn) :
  Forall (fun m' => exists o rest, call m' x augment profile visualize = Ok (o :: rest))
         pre ->
  (out <- call m x augment profile visualize ;; getitem out 0) = Raise e ->
  rmap (fun module => out <- call module x augment profile visualize ;; getitem out 0)
       (pre ++ m :: post)
  = Raise e.
Proof.
  intros Hpre Hm. induction Hpre as [|m' pre (o & rest & Ho) _ IH]; simpl.
  - by rewrite Hm.
  - rewrite Ho. cbn [getitem lookup list_lookup rbind]. by rewrite IH.
Qed.

(** X9.  The first member that fails decides how [forward] ends: the exception
    it raises is the exception of [forward], and a member that returns an
    empty sequence ends it in IndexError. *)
Theorem Ensemble_forward_first_failure (self : nn_module) (x : tensor)
    (augment profile visualize : bool)
    (pre post : list nn_module) (m : nn_module) (e : exn) :
  children self = pre ++ m :: post ->
  Forall (fun m' => exists o rest, call m' x augment profile visualize = Ok (o :: rest))
         pre ->
  call m x augment profile visualize = Raise e \/
  (call m x augment profile visualize = Ok [] /\ e = IndexError) ->
  forward self x augment profile visualize = Raise e.
Proof.
  intros Hch Hpre Hm. unfold Ensemble.forward. rewrite Hch.
  rewrite (forward_outputs_app x augment profile visualize pre post m e Hpre); [done|].
  destruct Hm as [->|[-> ->]]; done.
Qed.

(** X10.  [forward] returns exactly when every member returns a sequence with
    a first output and [torch.cat] accepts the list of these first
    outputs, and then it returns the pair of their concatenation along
    dimension 1 and None.  On an Ensemble without members the list is
    empty, and the outcome is that of [torch.cat] on the empty list. *)
Theorem Ensemble_forward_returns (self : nn_module) (x : tensor)
    (augment profile visualize : bool) :
  (forall r : tensor * value,
      forward self x augment profile visualize = Ok r
      <-> exists outs t,
            Forall2 (fun m o => exists rest,
                         call m x augment profile visualize = Ok (o :: rest))
                    (children self) outs /\
            cat outs 1%Z = Ok t /\ r = (t, VNone)) /\
  (children self = [] ->
   forward self x augment profile visualize = (y <- cat [] 1%Z ;; Ok (y, VNone))).
Proof.
  split; [|intros Hch; unfold Ensemble.forward; by rewrite Hch].
  intros r. unfold Ensemble.forward. split.
  - intros H. apply rbind_Ok in H as (outs & Houts & H).
    apply rbind_Ok in H as (t & Ht & H). injection H as <-.
    exists outs, t. split_and!; [|done|done].
    apply rmap_Forall2 in Houts. eapply Forall2_impl; [exact Houts|].
    intros m o Hm. simpl in Hm. apply rbind_Ok in Hm as ([|o' rest] & Hcall & Hget).
    + discriminate.
    + injection Hget as ->. by exists rest.
  - intros (outs & t & Houts & Ht & ->).
    assert (rmap (fun module => out <- call module x augment profile visualize ;;
                                getitem out 0) (children self) = Ok outs) as ->.
    { apply rmap_Forall2. eapply Forall2_impl; [exact Houts|].
      intros m o [rest Hm]. simpl. by rewrite Hm. }
    cbn [rbind]. by rewrite Ht.
Qed.
End EnsembleMore.

(** X7 on MixConv2d(4, 8, k=(1, 3), s=2). *)
Lemma MixConv2d_equal_ch_members_witness :
  exists self,
    MixConv2d.init (fun _ _ => []) 4 8 [1; 3]%Z 2 true = Ok self /\
    map MixConv2d.kernel_size (MixConv2d.m self) = [1; 3]%Z /\
    (MixConv2d.cat_channels self <= 8)%Z.
Proof.
  eexists. split; [vm_compute; reflexivity|].
  destruct (MixConv2d_equal_ch_members (fun _ _ => []) 4 8 [1; 3]%Z 2 _
              ltac:(vm_compute; reflexivity)) as (_ & Hk & _ & Hcat & Hbn).
  split; [exact Hk|]. rewrite Hbn in Hcat. exact Hcat.
Defined.

(** X8 on MixConv2d(6, 8, k=(1, 3)): two groups for the four output
    channels of each member. *)
Lemma MixConv2d_groups_divide_witness :
  exists self,
    MixConv2d.init (fun _ _ => []) 6 8 [1; 3]%Z 1 true = Ok self /\
    map MixConv2d.groups (MixConv2d.m self) = [2; 2]%Z /\
    Forall (fun conv =>
              (0 < MixConv2d.groups conv <= 6)%Z /\
              (MixConv2d.groups conv | MixConv2d.in_channels conv)%Z /\
              (MixConv2d.groups conv | MixConv2d.out_channels conv)%Z)
           (MixConv2d.m self).
Proof.
  eexists. split; [vm_compute; reflexivity|]. split; [reflexivity|].
  exact (MixConv2d_groups_divide (fun _ _ => []) 6 8 [1; 3]%Z 1 true _
           ltac:(lia) ltac:(vm_compute; reflexivity)).
Defined.

(** X9 on three members the second of which has no class count: its
    TypeError is the outcome. *)
Lemma Ensemble_forward_first_failure_witness :
  Ensemble.forward Z Example.call Example.cat
    (NN EnsembleC ∅ [Example.member_ab_a; NN ModelC ∅ []; Example.member_ab_b])
    1%Z false false false
  = Raise TypeError.
Proof.
  apply (Ensemble_forward_first_failure Example.call Example.cat _ 1%Z false false false
           [Example.member_ab_a] [Example.member_ab_b] (NN ModelC ∅ []) TypeError).
  - reflexivity.
  - apply Forall_cons_2; [|constructor]. eexists _, _. vm_compute. reflexivity.
  - left. vm_compute. reflexivity.
Defined.

(** X10 on the ensemble of a.pt and b.pt: the two first outputs are 81 and
    81, and their concatenation is returned with None. *)
Lemma Ensemble_forward_returns_witness :
  Ensemble.forward Z Example.call Example.cat Example.models_ab 1%Z false false false
  = Ok (162%Z, VNone).
Proof.
  apply (proj1 (Ensemble_forward_returns Example.call Example.cat Example.models_ab
                  1%Z false false false)).
  exists [81; 81]%Z, 162%Z. split_and!; [|reflexivity|reflexivity].
  repeat constructor; eexists; vm_compute; reflexivity.
Defined.

(** ** Loading, further *)

Section DictMore.
Context {K V : Type} `{EqDecision K}.

Lemma dict_get_set (k k' : K) (v : V) (d : list (K * V)) :
  dict_get k (dict_set k' v d) = if decide (k = k') then Some v else dict_get k d.
Proof.
  induction d as [|[k0 v0] d IH]; simpl.
  - destruct (decide (k = k')); done.
  - destruct (decide (k' = k0)) as [->|Hne]; simpl.
    + destruct (decide (k = k0)); done.
    + destruct (decide (k = k0)) as [->|Hne'].
      * destruct (decide (k0 = k')); [congruence|done].
      * exact IH.
Qed.

(** [{**d, **u}] read at a key: the entry of [u] if it has one. *)
Lemma dict_get_update (k : K) (u d : list (K * V)) :
  NoDup (dict_keys u) ->
  dict_get k (fold_left (fun d kv => dict_set (fst kv) (snd kv) d) u d)
  = match dict_get k u with
    | Some v => Some v
    | None => dict_get k d
    end.
Proof.
  revert d. induction u as [|[k0 v0] u IH]; intros d Hnd; simpl; [done|].
  change (dict_keys ((k0, v0) :: u)) with (k0 :: dict_keys u) in Hnd.
  apply NoDup_cons in Hnd as [Hk0 Hnd].
  rewrite IH by done. rewrite dict_get_set.
  destruct (decide (k = k0)) as [->|Hne]; [|done].
  apply dict_get_None in Hk0. by rewrite Hk0.
Qed.

(** A comprehension that keeps the items whose key passes a test. *)
Lemma dict_get_filter (q : K -> bool) (k : K) (d : list (K * V)) :
  dict_get k (List.filter (fun kv => q (fst kv)) d)
  = if q k then dict_get k d else None.
Proof.
  induction d as [|[k0 v0] d IH]; simpl; [by destruct (q k)|].
  destruct (q k0) eqn:Hq0; simpl.
  - destruct (decide (k = k0)) as [->|Hne]; [by rewrite Hq0|done].
  - destruct (decide (k = k0)) as [->|Hne]; [by rewrite Hq0 in *|done].
Qed.
End DictMore.

Lemma Forall2_exists_r {A B} (R : A -> B -> Prop) (l : list A) (l' : list B) :
  Forall2 R l l' -> Forall (fun y => exists x, R x y) l'.
Proof. induction 1; constructor; eauto. Qed.

Lemma for_modules_length body (m m' : nn_module) :
  for_modules body m = Ok m' -> length (children m') = length (children m).
Proof.
  intros H. apply for_modules_Ok in H as (_ & _ & H).
  symmetry. by apply Forall2_length in H.
Qed.

(** A loop over [modules()] visits the modules of the result in the order
    of the modules it started from, and applies its body to each. *)
Lemma for_modules_modules body (m : nn_module) :
  forall m', for_modules body m = Ok m' ->
  Forall2 (fun x y => cls y = cls x /\ body (cls x) (attrs x) = Ok (attrs y) /\
                      length (children y) = length (children x))
          (modules m) (modules m').
Proof.
  induction m as [c a ch IH] using nn_module_forall. intros m' H.
  pose proof (for_modules_length _ _ _ H) as Hlen.
  apply for_modules_Ok in H as (Hc & Ha & Hch).
  destruct m' as [c' a' ch']. simpl in *.
  constructor; [done|].
  clear Hlen. induction Hch as [|x y l l' Hxy Hl IHl]; simpl; [constructor|].
  apply Forall_cons_1 in IH as [Hx IH].
  apply Forall2_app; [by apply Hx|by apply IHl].
Qed.

(** [eval()] reaches every module. *)
Lemma eval_modules (m : nn_module) :
  Forall (fun x => attrs x !! "training" = Some (VBool false)) (modules (eval_ m)).
Proof.
  induction m as [c a ch IH] using nn_module_forall. cbn [eval_ modules].
  constructor; [cbn [attrs]; by rewrite lookup_insert_eq|].
  apply Forall_flat_map. apply Forall_forall. intros y Hy.
  apply list_elem_of_In, in_map_iff in Hy as (x & <- & Hx).
  rewrite Forall_forall in IH. by apply IH, list_elem_of_In.
Qed.

Section LoadMore.
Context {world : Type}.
Variable attempt_download : string -> world -> string * world.
Variable torch_load : string -> world -> result checkpoint.
Variable check_requirements : string -> world -> world.
Variable fuse_method : nn_module -> option nn_module.
Variable DEFAULT_CFG_DICT : list (key * value).
Variable DEFAULT_CFG_KEYS : list string.

Local Abbreviation torch_safe_load :=
  (Load.torch_safe_load world attempt_download torch_load check_requirements).
Local Abbreviation attempt_load :=
  (Load.attempt_load world attempt_download torch_load check_requirements fuse_method).
Local Abbreviation attempt_load_models :=
  (Load.attempt_load_models world attempt_download torch_load check_requirements
                            fuse_method).
Local Abbreviation attempt_load_members :=
  (Load.attempt_load_members world attempt_download torch_load check_requirements
                             fuse_method).
Local Abbreviation attempt_load_weights :=
  (Load.attempt_load_weights world attempt_download torch_load check_requirements
                             fuse_method DEFAULT_CFG_DICT DEFAULT_CFG_KEYS).
Local Abbreviation attempt_load_weights_members :=
  (Load.attempt_load_weights_members world attempt_download torch_load
     check_requirements fuse_method DEFAULT_CFG_DICT DEFAULT_CFG_KEYS).
Local Abbreviation load_one_weight :=
  (Load.attempt_load_one_weight world attempt_download torch_load check_requirements
                                fuse_method DEFAULT_CFG_DICT DEFAULT_CFG_KEYS).
Local Abbreviation one_weight_model :=
  (Load.attempt_load_one_weight_model fuse_method DEFAULT_CFG_DICT DEFAULT_CFG_KEYS).
Local Abbreviation model_args := (Load.model_args DEFAULT_CFG_DICT DEFAULT_CFG_KEYS).
Local Abbreviation silent := (fun ev : event => forall ws, ev <> PrintEnsemble ws).

(** *** What the loaders do to the outside *)

Lemma downloaded_app (t1 t2 : list event) :
  Load.downloaded (t1 ++ t2) = Load.downloaded t1 ++ Load.downloaded t2.
Proof. apply flat_map_app. Qed.

(** The events of one call of [torch_safe_load]. *)
Lemma torch_safe_load_trace (weight : string) (st : Load.state world) :
  exists new,
    Load.trace (torch_safe_load weight st).2 = Load.trace st ++ new /\
    Load.downloaded new = [weight] /\
    Forall silent new /\
    Load.warned new
    = match torch_load (attempt_download weight (Load.the_world st)).1
                       (attempt_download weight (Load.the_world st)).2 with
      | Raise (ModuleNotFoundError name) =>
          if String.eqb name "omegaconf" then [weight] else []
      | _ => []
      end.
Proof.
  unfold Load.torch_safe_load, Load.bind, Load.try_except, Load.call_attempt_download,
    Load.call_torch_load, Load.call_check_requirements, Load.emit, Load.throw, Load.ret.
  destruct (attempt_download weight (Load.the_world st)) as [file w1]. simpl.
  destruct (torch_load file w1) as [ckpt|e]; simpl.
  { exists [Download weight; PrintFile file; TorchLoad file].
    rewrite <- !app_assoc. split_and!; [done|done| |done].
    repeat (apply Forall_cons_2; [done|]). apply Forall_nil_2. }
  destruct e as [name| | | | | | | |];
    try (exists [Download weight; PrintFile file; TorchLoad file];
         rewrite <- !app_assoc; split_and!; [done|done| |done];
         repeat (apply Forall_cons_2; [done|]); apply Forall_nil_2).
  destruct (String.eqb name "omegaconf"); simpl.
  - exists [Download weight; PrintFile file; TorchLoad file;
            Warning weight name; CheckRequirements name; TorchLoad file].
    rewrite <- !app_assoc. split_and!; [done|done| |done].
    repeat (apply Forall_cons_2; [done|]). apply Forall_nil_2.
  - exists [Download weight; PrintFile file; TorchLoad file;
            CheckRequirements name; TorchLoad file].
    rewrite <- !app_assoc. split_and!; [done|done| |done].
    repeat (apply Forall_cons_2; [done|]). apply Forall_nil_2.
Qed.

(** X11.  [torch_safe_load] asks [attempt_download] for its weight once, and
    logs its warning for that weight exactly when the first [torch.load]
    misses the module omegaconf: any other missing module is installed
    without a warning. *)
Theorem torch_safe_load_warning (weight : string) (st : Load.state world) :
  let file := (attempt_download weight (Load.the_world st)).1 in
  let w1 := (attempt_download weight (Load.the_world st)).2 in
  let first := torch_load file w1 in
  let out := torch_safe_load weight st in
  exists new,
    Load.trace out.2 = Load.trace st ++ new /\
    Load.downloaded new = [weight] /\
    (first = Raise (ModuleNotFoundError "omegaconf") -> Load.warned new = [weight]) /\
    (first <> Raise (ModuleNotFoundError "omegaconf") -> Load.warned new = []).
Proof.
  simpl. destruct (torch_safe_load_trace weight st) as (new & Ht & Hd & _ & Hw).
  exists new. split_and!; [done|done| |].
  - intros E. rewrite E in Hw. exact Hw.
  - intros Hne. rewrite Hw.
    destruct (torch_load _ _) as [ckpt|[name| | | | | | | |]]; try done.
    destruct (String.eqb name "omegaconf") eqn:E; [|done].
    apply String.eqb_eq in E. subst name. by destruct Hne.
Qed.

(** The first loop of [attempt_load] asks for the weights in order and
    stops at the first one that fails. *)
Lemma attempt_load_members_trace weights fuse (ws : list string) (acc : nn_module)
    (st : Load.state world) :
  exists n new,
    Load.trace (attempt_load_members weights fuse acc ws st).2 = Load.trace st ++ new /\
    Load.downloaded new = take n ws /\ n <= length ws /\
    Forall silent new /\
    (returns (attempt_load_members weights fuse acc ws st).1 = true -> n = length ws).
Proof.
  revert acc st. induction ws as [|w ws IH]; intros acc st.
  - exists 0, []. simpl. rewrite app_nil_r. split_and!; done.
  - cbn [Load.attempt_load_members]. unfold Load.bind, Load.lift.
    destruct (torch_safe_load_trace w st) as (new1 & Ht1 & Hd1 & Hp1 & _).
    destruct (torch_safe_load w st) as [[ckpt|e] s1]; simpl in Ht1;
      [|exists 1, new1; simpl; rewrite take_0; split_and!; [done|done|lia|done|done]].
    destruct (Load.checkpoint_model ckpt) as [d|e];
      [|exists 1, new1; simpl; rewrite take_0; split_and!; [done|done|lia|done|done]].
    destruct (Load.attempt_load_prepare fuse_method weights fuse d) as [m|e];
      [|exists 1, new1; simpl; rewrite take_0; split_and!; [done|done|lia|done|done]].
    destruct (IH (Ensemble.append acc m) s1) as (n & new & Ht & Hd & Hn & Hp & Hret).
    exists (S n), (new1 ++ new).
    rewrite Ht, Ht1, downloaded_app, Hd1, Hd, app_assoc. simpl.
    split_and!; [done|done|lia|by apply Forall_app|].
    intros H. f_equal. by apply Hret.
Qed.

(** So does the first loop of [attempt_load_weights]. *)
Lemma attempt_load_weights_members_trace weights fuse (ws : list string)
    (acc : nn_module) (st : Load.state world) :
  exists n new,
    Load.trace (attempt_load_weights_members weights fuse acc ws st).2
    = Load.trace st ++ new /\
    Load.downloaded new = take n ws /\ n <= length ws /\
    Forall silent new /\
    (returns (attempt_load_weights_members weights fuse acc ws st).1 = true ->
     n = length ws).
Proof.
  revert acc st. induction ws as [|w ws IH]; intros acc st.
  - exists 0, []. simpl. rewrite app_nil_r. split_and!; done.
  - cbn [Load.attempt_load_weights_members]. unfold Load.bind, Load.lift.
    destruct (torch_safe_load_trace w st) as (new1 & Ht1 & Hd1 & Hp1 & _).
    destruct (torch_safe_load w st) as [[ckpt|e] s1]; simpl in Ht1;
      [|exists 1, new1; simpl; rewrite take_0; split_and!; [done|done|lia|done|done]].
    destruct (Load.attempt_load_weights_member _ _ _ weights fuse ckpt) as [m|e];
      [|exists 1, new1; simpl; rewrite take_0; split_and!; [done|done|lia|done|done]].
    destruct (IH (Ensemble.append acc m) s1) as (n & new & Ht & Hd & Hn & Hp & Hret).
    exists (S n), (new1 ++ new).
    rewrite Ht, Ht1, downloaded_app, Hd1, Hd, app_assoc. simpl.
    split_and!; [done|done|lia|by apply Forall_app|].
    intros H. f_equal. by apply Hret.
Qed.

Lemma attempt_load_members_length weights fuse (ws : list string) (model : nn_module)
    (st st1 : Load.state world) :
  attempt_load_members weights fuse Ensemble.init ws st = (Ok model, st1) ->
  length (children model) = length ws.
Proof.
  intros H.
  apply attempt_load_members_Ok in H as (_ & _ & ds & ms & Hds & Hch & Hall).
  rewrite Hch. simpl. apply Forall2_length in Hall. rewrite <- Hall.
  by apply (deserialized_length _ _ _ _ _ _ _ Hds).
Qed.

(** The first loop over [pre ++ post] is the loop over [pre] followed by
    the loop over [post]. *)
Lemma attempt_load_members_app weights fuse (pre post : list string) (acc : nn_module)
    (st : Load.state world) :
  attempt_load_members weights fuse acc (pre ++ post) st
  = match attempt_load_members weights fuse acc pre st with
    | (Ok acc', s) => attempt_load_members weights fuse acc' post s
    | (Raise e, s) => (Raise e, s)
    end.
Proof.
  revert acc st. induction pre as [|w pre IH]; intros acc st; [done|].
  cbn [app Load.attempt_load_members]. unfold Load.bind, Load.lift.
  destruct (torch_safe_load w st) as [[ckpt|e] s1]; [|done].
  destruct (Load.checkpoint_model ckpt) as [d|e]; [|done].
  destruct (Load.attempt_load_prepare fuse_method weights fuse d) as [m|e]; [|done].
  apply IH.
Qed.

(** One iteration asks for its weight, whether it completes or not. *)
Lemma attempt_load_members_step_trace weights fuse (w : string) (acc : nn_module)
    (st : Load.state world) :
  exists new,
    Load.trace (attempt_load_members weights fuse acc [w] st).2 = Load.trace st ++ new /\
    Load.downloaded new = [w] /\
    Forall silent new.
Proof.
  cbn [Load.attempt_load_members]. unfold Load.bind, Load.lift, Load.ret.
  destruct (torch_safe_load_trace w st) as (new & Ht & Hd & Hp & _).
  exists new.
  destruct (torch_safe_load w st) as [[ckpt|e] s1]; simpl in Ht; [|done].
  destruct (Load.checkpoint_model ckpt) as [d|e]; [|done].
  destruct (Load.attempt_load_prepare fuse_method weights fuse d) as [m|e]; done.
Qed.

(** A first loop that raises does so in the iteration of one weight, after
    the iterations of the weights before it have completed. *)
Lemma attempt_load_members_first_failure weights fuse (ws : list string)
    (acc : nn_module) (st : Load.state world) :
  returns (attempt_load_members weights fuse acc ws st).1 = false ->
  exists pre w post acc' s,
    ws = pre ++ w :: post /\
    attempt_load_members weights fuse acc pre st = (Ok acc', s) /\
    returns (attempt_load_members weights fuse acc' [w] s).1 = false /\
    attempt_load_members weights fuse acc ws st
    = attempt_load_members weights fuse acc' [w] s.
Proof.
  revert acc st. induction ws as [|w ws IH]; intros acc st H; [discriminate|].
  pose proof (attempt_load_members_app weights fuse [w] ws acc st) as Happ.
  change ([w] ++ ws) with (w :: ws) in Happ.
  destruct (attempt_load_members weights fuse acc [w] st) as [[acc1|e] s1] eqn:Hstep.
  - rewrite Happ in H. destruct (IH acc1 s1 H) as (pre & w' & post & acc' & s & -> & Hpre & Hw & Hrun).
    exists (w :: pre), w', post, acc', s. split_and!; [done| |done|].
    + pose proof (attempt_load_members_app weights fuse [w] pre acc st) as Happ'.
      change ([w] ++ pre) with (w :: pre) in Happ'. rewrite Happ', Hstep. exact Hpre.
    + change (w :: pre ++ w' :: post) with (w :: (pre ++ w' :: post)).
      rewrite Happ. exact Hrun.
  - exists [], w, ws, acc, st. split_and!; [done|done|by rewrite Hstep|].
    by rewrite Happ, Hstep.
Qed.

(** X12.  [attempt_load] asks [attempt_download] for the weights of its
    argument in their order, each once, up to and including the first
    weight whose iteration of the first loop raises, and for no weight
    after it: the outcome of that iteration is the outcome of the call.
    When the first loop completes it has asked for all the weights, and
    the call returns only then.  The message about the ensemble is
    printed exactly when every weight has been loaded into the Ensemble
    and there is not exactly one of them. *)
Theorem attempt_load_downloads (weights : weights_arg) (device inplace : value)
    (fuse : bool) (st : Load.state world) :
  let out := attempt_load weights device inplace fuse st in
  let loop := attempt_load_members weights fuse Ensemble.init (weights_list weights) st in
  exists new,
    Load.trace out.2 = Load.trace st ++ new /\
    (returns loop.1 = true -> Load.downloaded new = weights_list weights) /\
    (returns loop.1 = false ->
     exists pre w post acc s,
       weights_list weights = pre ++ w :: post /\
       attempt_load_members weights fuse Ensemble.init pre st = (Ok acc, s) /\
       returns (attempt_load_members weights fuse acc [w] s).1 = false /\
       out = attempt_load_members weights fuse acc [w] s /\
       Load.downloaded new = pre ++ [w]) /\
    (returns out.1 = true -> returns loop.1 = true) /\
    (forall ws, PrintEnsemble ws ∈ new
                <-> ws = weights /\ returns loop.1 = true /\
                    length (weights_list weights) <> 1).
Proof.
  cbv zeta. unfold Load.attempt_load, Load.attempt_load_models, Load.bind, Load.lift.
  destruct (attempt_load_members weights fuse Ensemble.init (weights_list weights) st)
    as [[model0|e] s1] eqn:Hmem; cbn [fst snd returns].
  - destruct (attempt_load_members_trace weights fuse (weights_list weights)
                Ensemble.init st) as (n & new & Ht & Hd & Hn & Hp & Hret).
    rewrite Hmem in Ht, Hret. cbn [fst snd] in Ht, Hret. specialize (Hret eq_refl).
    subst n. rewrite firstn_all in Hd.
    pose proof (attempt_load_members_length _ _ _ _ _ _ Hmem) as Hlen0.
    destruct (attempt_load_updates_total inplace model0) as [model Hupd].
    rewrite Hupd.
    pose proof (for_modules_length _ _ _ Hupd) as Hlen. rewrite Hlen0 in Hlen.
    unfold Load.attempt_load_return. rewrite Hlen.
    destruct (Nat.eqb_spec (length (weights_list weights)) 1) as [E|E].
    + exists new. split_and!; [done|done|discriminate|done|].
      intros ws. split; [|by intros (_ & _ & ?)].
      intros Hin. rewrite Forall_forall in Hp. by destruct (Hp _ Hin ws).
    + exists (new ++ [PrintEnsemble weights]).
      unfold Load.bind, Load.emit, Load.lift. cbn [fst snd Load.trace].
      rewrite downloaded_app, Hd, Ht, app_assoc. cbn [Load.downloaded flat_map].
      rewrite app_nil_r.
      split_and!; [done|done|discriminate|done|].
      intros ws. rewrite elem_of_app, list_elem_of_singleton. split.
      * intros [Hin|Hin].
        -- rewrite Forall_forall in Hp. by destruct (Hp _ Hin ws).
        -- by inversion Hin.
      * intros (-> & _ & _). by right.
  - destruct (attempt_load_members_first_failure weights fuse (weights_list weights)
                Ensemble.init st) as (pre & w & post & acc & s & Hws & Hpre & Hw & Hrun);
      [by rewrite Hmem|].
    destruct (attempt_load_members_trace weights fuse pre Ensemble.init st)
      as (n & new1 & Ht1 & Hd1 & _ & Hp1 & Hret1).
    rewrite Hpre in Ht1, Hret1. cbn [fst snd] in Ht1, Hret1. specialize (Hret1 eq_refl).
    subst n. rewrite firstn_all in Hd1.
    destruct (attempt_load_members_step_trace weights fuse w acc s)
      as (new2 & Ht2 & Hd2 & Hp2).
    rewrite <- Hrun, Hmem in Ht2. cbn [snd] in Ht2.
    exists (new1 ++ new2). rewrite Ht2, Ht1, app_assoc, downloaded_app, Hd1, Hd2.
    split_and!; [done|discriminate| |discriminate|].
    + intros _. exists pre, w, post, acc, s. split_and!; [done|done|done| |done].
      by rewrite <- Hrun, Hmem.
    + intros ws. split; [|by intros (_ & ? & _)].
      intros Hin. apply elem_of_app in Hin as [Hin|Hin].
      * rewrite Forall_forall in Hp1. by destruct (Hp1 _ Hin ws).
      * rewrite Forall_forall in Hp2. by destruct (Hp2 _ Hin ws).
Qed.

(** X13.  [attempt_load_weights] does all the work of its first loop before it
    fails: it asks for the weights in order, for all of them when every
    checkpoint loads, and it never prints the message about the
    ensemble. *)
Theorem attempt_load_weights_downloads (weights : weights_arg) (device inplace : value)
    (fuse : bool) (st : Load.state world) :
  let out := attempt_load_weights weights device inplace fuse st in
  let loop := attempt_load_weights_members weights fuse Ensemble.init
                                           (weights_list weights) st in
  exists n new,
    Load.trace out.2 = Load.trace st ++ new /\
    Load.downloaded new = take n (weights_list weights) /\
    n <= length (weights_list weights) /\
    (returns loop.1 = true -> n = length (weights_list weights)) /\
    Forall silent new.
Proof.
  cbv zeta. unfold Load.attempt_load_weights, Load.bind, Load.lift.
  destruct (attempt_load_weights_members_trace weights fuse (weights_list weights)
              Ensemble.init st) as (n & new & Ht & Hd & Hn & Hp & Hret).
  exists n, new.
  destruct (attempt_load_weights_members weights fuse Ensemble.init
              (weights_list weights) st) as [[model0|e] s1]; simpl in *; [|done].
  by rewrite for_modules_weights_raises.
Qed.

(** *** Edge cases of attempt_load *)

(** X14.  An empty list of weights: nothing is loaded, the message is printed,
    and [model[0]] on the empty Ensemble raises IndexError. *)
Theorem attempt_load_no_weights (device inplace : value) (fuse : bool)
    (st : Load.state world) :
  attempt_load (Paths []) device inplace fuse st
  = (Raise IndexError,
     Load.Build_state (Load.the_world st)
                      (Load.trace st ++ [PrintEnsemble (Paths [])])).
Proof.
  unfold Load.attempt_load, Load.attempt_load_models. simpl.
  unfold Load.bind, Load.ret, Load.lift. simpl.
  reflexivity.
Qed.

(** X15.  With [fuse=True], the first model without a [fuse] method, at
    whatever position in the list of weights, ends the call in
    AttributeError as soon as its checkpoint is loaded, and no later
    weight is looked at: [attempt_load] does not test for the method. *)
Theorem attempt_load_fuse_missing (weights : weights_arg) (device inplace : value)
    (st s st1 : Load.state world) (pre post : list string) (w : string)
    (acc : nn_module) (ckpt : checkpoint) (m0 : nn_module) :
  weights_list weights = pre ++ w :: post ->
  attempt_load_members weights true Ensemble.init pre st = (Ok acc, s) ->
  torch_safe_load w s = (Ok ckpt, st1) ->
  Load.checkpoint_model ckpt = Ok m0 ->
  fuse_method (Load.default_stride (setattr m0 "pt_path" (weights_value weights))) = None ->
  attempt_load weights device inplace true st = (Raise (AttributeError "fuse"), st1).
Proof.
  intros Hws Hpre Hload Hmodel Hfuse.
  unfold Load.attempt_load, Load.attempt_load_models, Load.bind. rewrite Hws.
  rewrite attempt_load_members_app, Hpre.
  cbn [Load.attempt_load_members]. unfold Load.bind, Load.lift.
  rewrite Hload, Hmodel.
  unfold Load.attempt_load_prepare. cbv zeta. by rewrite Hfuse.
Qed.

(** *** The loaded models *)

(** What [attempt_load] returns, in terms of the Ensemble it built. *)
Lemma attempt_load_Ok_members (weights : weights_arg) (device inplace : value)
    (fuse : bool) (st st' : Load.state world) (v : nn_module) :
  attempt_load weights device inplace fuse st = (Ok v, st') ->
  exists model st1,
    attempt_load_models weights inplace fuse st = (Ok model, st1) /\
    (if decide (length (weights_list weights) = 1) then [v] else children v)
    = children model.
Proof.
  intros H. unfold Load.attempt_load in H.
  apply bind_Ok in H as (model & st1 & Hmodels & Hret).
  pose proof (attempt_load_models_Ok _ _ _ _ _ _ _ _ _ _ Hmodels) as (Hcls & Hlen & _).
  exists model, st1. split; [done|].
  unfold Load.attempt_load_return in Hret. rewrite Hlen in Hret.
  destruct (decide (length (weights_list weights) = 1)) as [E|E].
  - rewrite E in Hlen, Hret. simpl in Hret.
    destruct (children model) as [|m [|m' l]]; try discriminate.
    apply lift_Ok in Hret as [Hget _]. by inversion Hget.
  - destruct (Nat.eqb_spec (length (weights_list weights)) 1) as [E'|_]; [done|].
    apply bind_Ok in Hret as ([] & st2 & _ & Hret).
    apply lift_Ok in Hret as [Hens _].
    by apply ensemble_attrs_shape in Hens as [_ Hch].
Qed.

Lemma default_stride_keeps (m : nn_module) (k : string) :
  k <> "stride"%string -> attrs (Load.default_stride m) !! k = attrs m !! k.
Proof.
  intros Hk. unfold Load.default_stride.
  destruct (hasattr (attrs m) "stride"); [done|].
  by rewrite attrs_setattr, lookup_insert_ne.
Qed.

(** A model as the first loop appends it is in eval mode throughout. *)
Lemma attempt_load_prepare_eval weights fuse (d m : nn_module) :
  Load.attempt_load_prepare fuse_method weights fuse d = Ok m ->
  Forall (fun x => attrs x !! "training" = Some (VBool false)) (modules m).
Proof.
  unfold Load.attempt_load_prepare. destruct fuse.
  - destruct (fuse_method _) as [f|]; [|discriminate].
    intros H. inversion H; subst. apply eval_modules.
  - intros H. inversion H; subst. apply eval_modules.
Qed.

Lemma attempt_load_prepare_pt_path weights fuse (d m : nn_module) :
  (forall m f, fuse_method m = Some f -> attrs f !! "pt_path" = attrs m !! "pt_path") ->
  Load.attempt_load_prepare fuse_method weights fuse d = Ok m ->
  attrs m !! "pt_path" = Some (weights_value weights).
Proof.
  intros Hfuse. unfold Load.attempt_load_prepare.
  assert (attrs (Load.default_stride (setattr d "pt_path" (weights_value weights)))
          !! "pt_path" = Some (weights_value weights)) as Hp.
  { rewrite default_stride_keeps by done. by rewrite attrs_setattr, lookup_insert_eq. }
  destruct fuse.
  - destruct (fuse_method _) as [f|] eqn:Hf; [|discriminate].
    intros H. inversion H; subst. rewrite attrs_eval, lookup_insert_ne by done.
    by rewrite (Hfuse _ _ Hf).
  - intros H. inversion H; subst. by rewrite attrs_eval, lookup_insert_ne.
Qed.

(** X16.  Every module of every model [attempt_load] returns, down to the last
    descendant, has [training = False]: the model returned for one
    weight, and each member of an ensemble. *)
Theorem attempt_load_eval_mode (weights : weights_arg) (device inplace : value)
    (fuse : bool) (st st' : Load.state world) (v : nn_module) :
  attempt_load weights device inplace fuse st = (Ok v, st') ->
  Forall (fun member =>
            Forall (fun m => attrs m !! "training" = Some (VBool false))
                   (modules member))
         (if decide (length (weights_list weights) = 1) then [v] else children v).
Proof.
  intros H. apply attempt_load_Ok_members in H as (model & st1 & Hmodels & ->).
  apply attempt_load_models_Ok in Hmodels as (_ & _ & ds & _ & Hall).
  apply Forall2_exists_r in Hall. eapply Forall_impl; [exact Hall|].
  simpl. intros member (d & m0 & Hprep & Hupd).
  apply attempt_load_prepare_eval in Hprep.
  apply for_modules_modules in Hupd.
  clear -Hprep Hupd.
  induction Hupd as [|x y l l' (_ & Hbody & _) _ IH]; [constructor|].
  apply Forall_cons_1 in Hprep as [Hx Hl].
  constructor; [|by apply IH].
  rewrite (attempt_load_update_keeps _ _ _ _ "training" Hbody) by done. exact Hx.
Qed.

(** X17.  Let [fuse] leave the attribute [pt_path] alone.  Every model
    [attempt_load] returns has as [pt_path] the whole argument
    [weights]: for a list of weights each member gets the list, not the
    weight it was loaded from. *)
Theorem attempt_load_pt_path (weights : weights_arg) (device inplace : value)
    (fuse : bool) (st st' : Load.state world) (v : nn_module) :
  (forall m f, fuse_method m = Some f -> attrs f !! "pt_path" = attrs m !! "pt_path") ->
  attempt_load weights device inplace fuse st = (Ok v, st') ->
  Forall (fun member => attrs member !! "pt_path" = Some (weights_value weights))
         (if decide (length (weights_list weights) = 1) then [v] else children v).
Proof.
  intros Hfuse H. apply attempt_load_Ok_members in H as (model & st1 & Hmodels & ->).
  apply attempt_load_models_Ok in Hmodels as (_ & _ & ds & _ & Hall).
  apply Forall2_exists_r in Hall. eapply Forall_impl; [exact Hall|].
  simpl. intros member (d & m0 & Hprep & Hupd).
  apply (attempt_load_prepare_pt_path _ _ _ _ Hfuse) in Hprep.
  apply for_modules_Ok in Hupd as (_ & Hbody & _).
  by rewrite (attempt_load_update_keeps _ _ _ _ "pt_path" Hbody).
Qed.
End LoadMore.

(** *** The loop "Compatibility updates", over a whole model *)

Lemma class_in_classes (t : Class) (cs : list Class) :
  class_in t (map VClass cs) = bool_decide (t ∈ cs).
Proof.
  induction cs as [|c cs IH]; [done|].
  change (class_in t (map VClass (c :: cs)))
    with (bool_decide (t = c) || class_in t (map VClass cs)).
  rewrite IH. destruct (decide (t = c)) as [->|Hne].
  - rewrite (bool_decide_eq_true_2 (c = c)) by done.
    symmetry. apply bool_decide_eq_true_2. by left.
  - rewrite (bool_decide_eq_false_2 (t = c)) by done.
    apply bool_decide_ext. rewrite elem_of_cons. split; [by right|by intros [?|?]].
Qed.

Lemma Ok_inj {A} (x y : A) : Ok x = Ok y -> x = y.
Proof. congruence. Qed.

(** The classes whose instances get [inplace] in [attempt_load]. *)
Local Abbreviation inplace_classes :=
  [Hardswish; LeakyReLU; ReLU; ReLU6; SiLU; ModelC; V8_Detect; V8_Segment].

Local Ltac refute_elem H :=
  apply (bool_decide_pack _) in H; vm_compute in H; destruct H.

(** The body of the loop, read attribute by attribute. *)
Lemma attempt_load_update_lookup (inplace : value) (t : Class) (a a' : gmap string value) :
  Load.attempt_load_update inplace t a = Ok a' ->
  (forall k : string,
      k <> "inplace"%string -> k <> "_non_persistent_buffers_set"%string ->
      k <> "recompute_scale_factor"%string -> a' !! k = a !! k) /\
  a' !! "inplace"
  = (if bool_decide (t ∈ inplace_classes) then Some inplace else a !! "inplace") /\
  a' !! "_non_persistent_buffers_set"
  = (if bool_decide (t = ConvC) then Some (VSet [])
     else a !! "_non_persistent_buffers_set") /\
  a' !! "recompute_scale_factor"
  = (if bool_decide (t = Upsample)
     then Some (default VNone (a !! "recompute_scale_factor"))
     else a !! "recompute_scale_factor").
Proof.
  intros H. split; [intros k; by apply (attempt_load_update_keeps _ _ _ _ _ H)|].
  rewrite attempt_load_update_run in H. apply Ok_inj in H. subst a'.
  change [VClass Hardswish; VClass LeakyReLU; VClass ReLU; VClass ReLU6; VClass SiLU;
          VClass ModelC; VClass V8_Detect; VClass V8_Segment]
    with (map VClass inplace_classes).
  change [VClass ConvC] with (map VClass [ConvC]).
  rewrite !class_in_classes.
  destruct (decide (t ∈ inplace_classes)) as [Hin|Hnin].
  - rewrite (bool_decide_eq_true_2 _ Hin).
    assert (t <> ConvC) as Hconv by (intros ->; refute_elem Hin).
    assert (t <> Upsample) as Hup by (intros ->; refute_elem Hin).
    rewrite (bool_decide_eq_false_2 _ Hconv), (bool_decide_eq_false_2 _ Hup).
    by rewrite lookup_insert_eq, !lookup_insert_ne.
  - rewrite (bool_decide_eq_false_2 _ Hnin).
    destruct (decide (t = ConvC)) as [->|Hconv].
    + rewrite (bool_decide_eq_true_2 (ConvC ∈ [ConvC])) by (by left).
      rewrite (bool_decide_eq_true_2 (ConvC = ConvC)) by done.
      rewrite (bool_decide_eq_false_2 (ConvC = Upsample)) by done.
      by rewrite lookup_insert_eq, !lookup_insert_ne.
    + rewrite (bool_decide_eq_false_2 (t ∈ [ConvC]))
        by (intros Hin; by apply list_elem_of_singleton in Hin).
      rewrite (bool_decide_eq_false_2 _ Hconv).
      destruct (decide (t = Upsample)) as [->|Hup].
      * rewrite (bool_decide_eq_true_2 (Upsample = Upsample)) by done.
        unfold hasattr. cbn [andb].
        destruct (a !! "recompute_scale_factor") as [v|] eqn:Hv.
        -- rewrite bool_decide_eq_true_2 by eauto. cbn [negb]. by rewrite Hv.
        -- rewrite bool_decide_eq_false_2 by (by intros [? ?]). cbn [negb].
           by rewrite lookup_insert_eq, !lookup_insert_ne.
      * rewrite (bool_decide_eq_false_2 _ Hup). done.
Qed.

(** X18.  The loop "Compatibility updates" of [attempt_load], over a model: it
    always completes; it keeps the modules, their order, their classes
    and their children; it assigns no attribute other than [inplace],
    [_non_persistent_buffers_set] and [recompute_scale_factor].  [inplace]
    is set on the five activations, on Model, V8_Detect and V8_Segment and
    on no other class; the buffer set is emptied on Conv modules only; an
    Upsample module gets [recompute_scale_factor = None] unless it has the
    attribute already, which then keeps its value. *)
Theorem attempt_load_compatibility (inplace : value) (m : nn_module) :
  exists m',
    for_modules (Load.attempt_load_update inplace) m = Ok m' /\
    Forall2 (fun x y =>
               cls y = cls x /\
               length (children y) = length (children x) /\
               (forall k : string,
                   k <> "inplace"%string ->
                   k <> "_non_persistent_buffers_set"%string ->
                   k <> "recompute_scale_factor"%string ->
                   attrs y !! k = attrs x !! k) /\
               attrs y !! "inplace"
               = (if bool_decide (cls x ∈ inplace_classes) then Some inplace
                  else attrs x !! "inplace") /\
               attrs y !! "_non_persistent_buffers_set"
               = (if bool_decide (cls x = ConvC) then Some (VSet [])
                  else attrs x !! "_non_persistent_buffers_set") /\
               attrs y !! "recompute_scale_factor"
               = (if bool_decide (cls x = Upsample)
                  then Some (default VNone (attrs x !! "recompute_scale_factor"))
                  else attrs x !! "recompute_scale_factor"))
            (modules m) (modules m').
Proof.
  destruct (attempt_load_updates_total inplace m) as [m' Hrun].
  exists m'. split; [done|].
  apply for_modules_modules in Hrun.
  eapply Forall2_impl; [exact Hrun|]. simpl.
  intros x y (Hcls & Hbody & Hlen).
  apply attempt_load_update_lookup in Hbody as (Hkeep & Hi & Hb & Hr).
  split_and!; done.
Qed.

(** One pass of the body is enough for a module. *)
Lemma attempt_load_update_twice (inplace : value) (t : Class) (a a' : gmap string value) :
  Load.attempt_load_update inplace t a = Ok a' ->
  Load.attempt_load_update inplace t a' = Ok a'.
Proof.
  rewrite !attempt_load_update_run. intros H. apply Ok_inj in H. subst a'. f_equal.
  destruct (class_in t [VClass Hardswish; VClass LeakyReLU; VClass ReLU; VClass ReLU6;
                        VClass SiLU; VClass ModelC; VClass V8_Detect; VClass V8_Segment]);
    [by rewrite insert_insert_eq|].
  destruct (class_in t [VClass ConvC]); [by rewrite insert_insert_eq|].
  destruct (bool_decide (t = Upsample)); [|done]. cbn [andb].
  destruct (hasattr a "recompute_scale_factor") eqn:Hhas; cbn [negb].
  - by rewrite Hhas.
  - unfold hasattr. rewrite bool_decide_eq_true_2; [done|].
    rewrite lookup_insert_eq. eauto.
Qed.

(** X19.  Running the loop "Compatibility updates" on a model it has already
    updated changes nothing. *)
Theorem attempt_load_compatibility_idempotent (inplace : value) (m m' : nn_module) :
  for_modules (Load.attempt_load_update inplace) m = Ok m' ->
  for_modules (Load.attempt_load_update inplace) m' = Ok m'.
Proof.
  revert m'. induction m as [c a ch IH] using nn_module_forall. intros m' H.
  apply for_modules_Ok in H as (Hc & Ha & Hch).
  destruct m' as [c' a' ch']. simpl in Hc, Ha, Hch. subst c'.
  cbn [for_modules]. rewrite (attempt_load_update_twice _ _ _ _ Ha). cbn [rbind].
  assert (rmap (for_modules (Load.attempt_load_update inplace)) ch' = Ok ch') as ->; [|done].
  apply rmap_Forall2.
  clear Ha. induction Hch as [|x y l l' Hxy Hl IHl]; [constructor|].
  apply Forall_cons_1 in IH as [Hx IH].
  constructor; [by apply Hx|by apply IHl].
Qed.

(** *** attempt_load_one_weight *)

Lemma attempt_load_one_weight_update_run (inplace : value) (t : Class)
    (a : gmap string value) :
  Load.attempt_load_one_weight_update inplace t a
  = Ok (if class_in t [VClass Hardswish; VClass LeakyReLU; VClass ReLU; VClass ReLU6;
                       VClass SiLU; VClass V8_Detect; VClass V8_Segment]
        then <["inplace" := inplace]> a
        else if bool_decide (t = Upsample)
                && negb (hasattr a "recompute_scale_factor")
             then <["recompute_scale_factor" := VNone]> a
             else a).
Proof.
  unfold Load.attempt_load_one_weight_update.
  match goal with
  | |- rbind ?e _ = _ =>
      assert (e = Ok [VClass Hardswish; VClass LeakyReLU; VClass ReLU; VClass ReLU6;
                      VClass SiLU; VClass V8_Detect; VClass V8_Segment])
        as -> by (vm_compute; reflexivity)
  end.
  cbn [rbind].
  destruct (class_in t _); [done|].
  destruct (bool_decide (t = Upsample) && negb (hasattr a "recompute_scale_factor")); done.
Qed.

Lemma attempt_load_one_weight_update_keeps inplace t a a' (k : string) :
  Load.attempt_load_one_weight_update inplace t a = Ok a' ->
  k <> "inplace"%string -> k <> "recompute_scale_factor"%string ->
  a' !! k = a !! k.
Proof.
  rewrite attempt_load_one_weight_update_run. intros H H1 H2. apply Ok_inj in H. subst a'.
  repeat match goal with
         | |- context [if ?b then _ else _] => destruct b
         end; by rewrite ?lookup_insert_ne.
Qed.

(** The loop "Module compatibility updates" of [attempt_load_one_weight]
    raises nothing: every name in its tuple of classes is bound. *)
Lemma attempt_load_one_weight_updates_total (inplace : value) (m : nn_module) :
  exists m', for_modules (Load.attempt_load_one_weight_update inplace) m = Ok m'.
Proof.
  induction m as [c a ch IH] using nn_module_forall. simpl.
  rewrite attempt_load_one_weight_update_run. cbn [rbind].
  assert (exists ch',
             rmap (for_modules (Load.attempt_load_one_weight_update inplace)) ch = Ok ch')
    as [ch' ->].
  { induction IH as [|x ch [x' Hx] _ [ch' Hch]]; simpl; [eauto|].
    rewrite Hx, Hch. simpl. eauto. }
  simpl. eauto.
Qed.

Section OneWeight.
Context {world : Type}.
Variable attempt_download : string -> world -> string * world.
Variable torch_load : string -> world -> result checkpoint.
Variable check_requirements : string -> world -> world.
Variable fuse_method : nn_module -> option nn_module.
Variable DEFAULT_CFG_DICT : list (key * value).
Variable DEFAULT_CFG_KEYS : list string.

Local Abbreviation torch_safe_load :=
  (Load.torch_safe_load world attempt_download torch_load check_requirements).
Local Abbreviation load_one_weight :=
  (Load.attempt_load_one_weight world attempt_download torch_load check_requirements
                                fuse_method DEFAULT_CFG_DICT DEFAULT_CFG_KEYS).
Local Abbreviation one_weight_model :=
  (Load.attempt_load_one_weight_model fuse_method DEFAULT_CFG_DICT DEFAULT_CFG_KEYS).
Local Abbreviation model_args := (Load.model_args DEFAULT_CFG_DICT DEFAULT_CFG_KEYS).

(** X20.  [model.args]: a name of [DEFAULT_CFG_KEYS] has the value of the
    checkpoint's train_args where they give one and the default value
    otherwise; no other name and no integer key is kept. *)
Theorem model_args_lookup (targs : list (key * value)) :
  NoDup (dict_keys targs) ->
  (forall k : string,
      dict_get (KStr k) (model_args targs)
      = if bool_decide (k ∈ DEFAULT_CFG_KEYS)
        then match dict_get (KStr k) targs with
             | Some v => Some v
             | None => dict_get (KStr k) DEFAULT_CFG_DICT
             end
        else None) /\
  (forall z : Z, dict_get (KInt z) (model_args targs) = None).
Proof.
  intros Hnd. unfold Load.model_args.
  pose (q := fun k : key => match k with
                            | KStr k => bool_decide (k ∈ DEFAULT_CFG_KEYS)
                            | KInt _ => false
                            end).
  split.
  - intros k. etrans; [exact (dict_get_filter q (KStr k) _)|]. simpl.
    destruct (bool_decide (k ∈ DEFAULT_CFG_KEYS)); [|done].
    by apply dict_get_update.
  - intros z. exact (dict_get_filter q (KInt z) _).
Qed.

(** The model before the loop over its modules. *)
Lemma attempt_load_one_weight_model_run (weight : string) (fuse : bool)
    (ckpt : checkpoint) :
  one_weight_model weight fuse ckpt
  = match train_args ckpt, Load.checkpoint_model ckpt with
    | Some targs, Ok m0 =>
        let m1 := Load.default_stride
                    (setattr (setattr m0 "args" (VDict (model_args targs)))
                             "pt_path" (VStr weight)) in
        Ok (eval_ (match fuse, fuse_method m1 with
                   | true, Some fused => fused
                   | _, _ => m1
                   end))
    | _, _ => Raise KeyError
    end.
Proof.
  unfold Load.attempt_load_one_weight_model, Load.checkpoint_model.
  destruct (train_args ckpt) as [targs|]; [|done]. cbn [rbind].
  destruct (ema ckpt) as [m0|]; [|destruct (model ckpt) as [m0|]; [|done]];
    cbn [rbind]; destruct fuse; try done;
    destruct (fuse_method _); done.
Qed.

(** The classes whose instances get [inplace] in [attempt_load_one_weight]. *)
Local Abbreviation one_weight_inplace_classes :=
  [Hardswish; LeakyReLU; ReLU; ReLU6; SiLU; V8_Detect; V8_Segment].

(** X21.  The outcome of [attempt_load_one_weight], step by step.  An
    exception of [torch_safe_load] is the exception of the call, and so is
    an exception raised while the model is taken out of the loaded
    checkpoint and prepared.  Once the model is prepared the call returns:
    the loop "Module compatibility updates" completes on any model, and
    the pair returned is the updated model and the checkpoint that holds
    it.  The loop keeps the modules, their order, their classes and their
    children; it sets [inplace] on the five activations, on V8_Detect and
    on V8_Segment, gives an Upsample module without
    [recompute_scale_factor] the value None, and leaves every other module
    as it is.  Nothing happens to the outside after the checkpoint is
    loaded. *)
Theorem attempt_load_one_weight_returns (weight : string) (device inplace : value)
    (fuse : bool) (st : Load.state world) :
  let loaded := torch_safe_load weight st in
  let out := load_one_weight weight device inplace fuse st in
  out.2 = loaded.2 /\
  (forall e, loaded.1 = Raise e -> out.1 = Raise e) /\
  (forall ckpt,
      loaded.1 = Ok ckpt ->
      (forall e, one_weight_model weight fuse ckpt = Raise e -> out.1 = Raise e) /\
      (forall m,
          one_weight_model weight fuse ckpt = Ok m ->
          exists v,
            out.1 = Ok (v, Load.checkpoint_with ckpt v) /\
            Forall2 (fun x y =>
                       cls y = cls x /\
                       length (children y) = length (children x) /\
                       attrs y
                       = if bool_decide (cls x ∈ one_weight_inplace_classes)
                         then <["inplace" := inplace]> (attrs x)
                         else if bool_decide (cls x = Upsample)
                                 && negb (hasattr (attrs x) "recompute_scale_factor")
                              then <["recompute_scale_factor" := VNone]> (attrs x)
                              else attrs x)
                    (modules m) (modules v))).
Proof.
  cbv zeta. unfold Load.attempt_load_one_weight, Load.bind, Load.lift, Load.ret.
  destruct (torch_safe_load weight st) as [[ckpt|e] s1]; cbn [fst snd].
  2: { split_and!; [done|congruence|discriminate]. }
  split_and!; [|discriminate|].
  - destruct (one_weight_model weight fuse ckpt) as [m|e]; [|done].
    by destruct (attempt_load_one_weight_updates_total inplace m) as [v ->].
  - intros ckpt' E. injection E as <-. split.
    + intros e ->. done.
    + intros m ->.
      destruct (attempt_load_one_weight_updates_total inplace m) as [v Hv].
      rewrite Hv. exists v. split; [done|].
      apply for_modules_modules in Hv.
      eapply Forall2_impl; [exact Hv|]. cbn beta.
      intros x y (Hcls & Hbody & Hlen). split_and!; [done|done|].
      rewrite attempt_load_one_weight_update_run in Hbody. apply Ok_inj in Hbody.
      rewrite <- Hbody.
      change [VClass Hardswish; VClass LeakyReLU; VClass ReLU; VClass ReLU6;
              VClass SiLU; VClass V8_Detect; VClass V8_Segment]
        with (map VClass one_weight_inplace_classes).
      by rewrite class_in_classes.
Qed.

(** X22.  Let [fuse] leave the attributes [args], [pt_path] and [stride]
    alone.  The model [attempt_load_one_weight] returns has as [args] the
    merged arguments, as [pt_path] the weight it was loaded from, as
    [stride] its own or the tensor [[32.]], and [training = False] on
    every module; the checkpoint returned with it is the loaded one,
    holding the model. *)
Theorem attempt_load_one_weight_attrs (weight : string) (device inplace : value)
    (fuse : bool) (st st' : Load.state world) (v : nn_module) (ckpt : checkpoint) :
  (forall m f (k : string),
      fuse_method m = Some f -> k ∈ ["args"; "pt_path"; "stride"]%string ->
      attrs f !! k = attrs m !! k) ->
  load_one_weight weight device inplace fuse st = (Ok (v, ckpt), st') ->
  exists ckpt0 targs m0,
    torch_safe_load weight st = (Ok ckpt0, st') /\
    train_args ckpt0 = Some targs /\
    Load.checkpoint_model ckpt0 = Ok m0 /\
    ckpt = Load.checkpoint_with ckpt0 v /\
    attrs v !! "args" = Some (VDict (model_args targs)) /\
    attrs v !! "pt_path" = Some (VStr weight) /\
    attrs v !! "stride" = Some (default (VTensor [32%Z]) (attrs m0 !! "stride")) /\
    Forall (fun m => attrs m !! "training" = Some (VBool false)) (modules v).
Proof.
  intros Hfuse H. unfold Load.attempt_load_one_weight in H.
  apply bind_Ok in H as (ckpt0 & s1 & Hload & H).
  apply bind_Ok in H as (v0 & s2 & Hmodel & H). apply lift_Ok in Hmodel as [Hmodel ->].
  apply bind_Ok in H as (v1 & s3 & Hupd & H). apply lift_Ok in Hupd as [Hupd ->].
  unfold Load.ret in H. injection H as <- <- <-.
  rewrite attempt_load_one_weight_model_run in Hmodel.
  destruct (train_args ckpt0) as [targs|] eqn:Hargs; [|discriminate].
  destruct (Load.checkpoint_model ckpt0) as [m0|] eqn:Hm0; [|discriminate].
  cbv zeta in Hmodel. injection Hmodel as <-.
  exists ckpt0, targs, m0. split_and!; [done|done|done|done| | | |].
  1-3: pose proof (for_modules_Ok _ _ _ Hupd) as (_ & Hbody & _).
  - rewrite (attempt_load_one_weight_update_keeps _ _ _ _ "args" Hbody) by done.
    rewrite attrs_eval, lookup_insert_ne by done.
    transitivity (attrs (Load.default_stride
                           (setattr (setattr m0 "args" (VDict (model_args targs)))
                                    "pt_path" (VStr weight))) !! "args").
    + destruct fuse; [|done].
      destruct (fuse_method _) as [f|] eqn:Hf; [|done].
      apply (Hfuse _ _ _ Hf). set_solver.
    + rewrite default_stride_keeps by done.
      rewrite !attrs_setattr, lookup_insert_ne, lookup_insert_eq by done. done.
  - rewrite (attempt_load_one_weight_update_keeps _ _ _ _ "pt_path" Hbody) by done.
    rewrite attrs_eval, lookup_insert_ne by done.
    transitivity (attrs (Load.default_stride
                           (setattr (setattr m0 "args" (VDict (model_args targs)))
                                    "pt_path" (VStr weight))) !! "pt_path").
    + destruct fuse; [|done].
      destruct (fuse_method _) as [f|] eqn:Hf; [|done].
      apply (Hfuse _ _ _ Hf). set_solver.
    + rewrite default_stride_keeps by done.
      rewrite !attrs_setattr, lookup_insert_eq. done.
  - rewrite (attempt_load_one_weight_update_keeps _ _ _ _ "stride" Hbody) by done.
    rewrite attrs_eval, lookup_insert_ne by done.
    transitivity (attrs (Load.default_stride
                           (setattr (setattr m0 "args" (VDict (model_args targs)))
                                    "pt_path" (VStr weight))) !! "stride").
    + destruct fuse; [|done].
      destruct (fuse_method _) as [f|] eqn:Hf; [|done].
      apply (Hfuse _ _ _ Hf). set_solver.
    + rewrite default_stride_lookup.
      rewrite !attrs_setattr, !lookup_insert_ne by done. done.
  - apply for_modules_modules in Hupd.
    match type of Hupd with
    | Forall2 _ (modules (eval_ ?m)) _ => pose proof (eval_modules m) as Heval
    end.
    clear -Heval Hupd.
    induction Hupd as [|x y l l' (_ & Hbody & _) _ IH]; [constructor|].
    apply Forall_cons_1 in Heval as [Hx Hl].
    constructor; [|by apply IH].
    rewrite (attempt_load_one_weight_update_keeps _ _ _ _ "training" Hbody) by done.
    exact Hx.
Qed.
End OneWeight.

(** ** The further statements on concrete inputs *)

Lemma Example_run_one_weight_c :
  Example.attempt_load_one_weight "c.pt" VNone (VBool true) false Example.start
  = (Ok (Example.one_weight_c,
         Load.checkpoint_with (Example.ckpt_of (Example.yolo 20 None))
                              Example.one_weight_c),
     Example.loaded ["c.pt"]).
Proof. vm_compute. reflexivity. Qed.

Lemma Example_fuse_keeps (m f : nn_module) (k : string) :
  Example.fuse_method m = Some f -> attrs f !! k = attrs m !! k.
Proof. intros Hf. injection Hf as ->. reflexivity. Qed.

Lemma Example_members_a_fuse_80 :
  Load.attempt_load_members Example.world Example.attempt_download Example.torch_load
    Example.check_requirements Example.fuse_80 Example.weights_ac true
    Ensemble.init ["a.pt"]%string Example.start
  = (Ok Example.members_a_fuse_80, Example.loaded ["a.pt"]).
Proof. vm_compute. reflexivity. Qed.

(** X15 on a.pt and c.pt, where only the model of a.pt has [fuse]: the call
    ends in AttributeError at the second weight, once c.pt is loaded. *)
Lemma attempt_load_fuse_missing_witness :
  Load.attempt_load Example.world Example.attempt_download Example.torch_load
    Example.check_requirements Example.fuse_80
    Example.weights_ac VNone (VBool true) true Example.start
  = (Raise (AttributeError "fuse"), Example.loaded ["a.pt"; "c.pt"]).
Proof.
  apply (attempt_load_fuse_missing Example.attempt_download Example.torch_load
           Example.check_requirements Example.fuse_80
           Example.weights_ac VNone (VBool true)
           Example.start (Example.loaded ["a.pt"]) (Example.loaded ["a.pt"; "c.pt"])
           ["a.pt"]%string [] "c.pt" Example.members_a_fuse_80
           (Example.ckpt_of (Example.yolo 20 None)) (Example.yolo 20 None)).
  - reflexivity.
  - exact Example_members_a_fuse_80.
  - vm_compute. reflexivity.
  - reflexivity.
  - reflexivity.
Defined.

(** The model of a.pt is in eval mode down to its head. *)
Lemma attempt_load_eval_mode_witness :
  Forall (fun m => attrs m !! "training" = Some (VBool false))
         (modules Example.model_a).
Proof.
  exact (Forall_inv
           (attempt_load_eval_mode Example.attempt_download Example.torch_load
              Example.check_requirements Example.fuse_method
              (Path "a.pt") VNone (VBool true) true
              Example.start (Example.loaded ["a.pt"]) Example.model_a Example_run_a)).
Defined.

(** Both members of the ensemble of a.pt and b.pt carry the list of the
    two weights as [pt_path]. *)
Lemma attempt_load_pt_path_witness :
  Forall (fun member =>
            attrs member !! "pt_path" = Some (VList [VStr "a.pt"; VStr "b.pt"]))
         [Example.member_ab_a; Example.member_ab_b].
Proof.
  exact (attempt_load_pt_path Example.attempt_download Example.torch_load
           Example.check_requirements Example.fuse_method
           Example.weights_ab VNone (VBool true) true
           Example.start _ Example.ensemble_ab
           (fun m f => Example_fuse_keeps m f "pt_path") Example_run_ab).
Defined.

(** An updated Upsample module is left as it is by a second pass. *)
Lemma attempt_load_compatibility_idempotent_witness :
  for_modules (Load.attempt_load_update (VBool true))
              (NN Upsample (<["recompute_scale_factor" := VNone]> ∅) [])
  = Ok (NN Upsample (<["recompute_scale_factor" := VNone]> ∅) []).
Proof.
  apply (attempt_load_compatibility_idempotent (VBool true) (NN Upsample ∅ [])).
  vm_compute. reflexivity.
Defined.

(** The model of c.pt loaded on its own: its [pt_path] is the weight, and
    it is in eval mode. *)
Lemma attempt_load_one_weight_attrs_witness :
  attrs Example.one_weight_c !! "pt_path" = Some (VStr "c.pt") /\
  Forall (fun m => attrs m !! "training" = Some (VBool false))
         (modules Example.one_weight_c).
Proof.
  destruct (attempt_load_one_weight_attrs Example.attempt_download Example.torch_load
              Example.check_requirements Example.fuse_method
              [(KStr "imgsz", VInt 640)] ["imgsz"%string]
              "c.pt" VNone (VBool true) false
              Example.start (Example.loaded ["c.pt"]) Example.one_weight_c _
              (fun m f k Hf _ => Example_fuse_keeps m f k Hf)
              Example_run_one_weight_c)
    as (ckpt0 & targs & m0 & _ & _ & _ & _ & _ & Hpath & _ & Heval).
  split; [exact Hpath|exact Heval].
Defined.

(** Merging train_args over the defaults: the trained image size wins,
    a key outside DEFAULT_CFG_KEYS is dropped. *)
Lemma model_args_lookup_witness :
  dict_get (KStr "imgsz")
           (Load.model_args [(KStr "imgsz", VInt 640); (KStr "epochs", VInt 100)]
                            ["imgsz"; "batch"]%string
                            [(KStr "imgsz", VInt 320); (KStr "batch", VInt 16)])
  = Some (VInt 320) /\
  dict_get (KStr "epochs")
           (Load.model_args [(KStr "imgsz", VInt 640); (KStr "epochs", VInt 100)]
                            ["imgsz"; "batch"]%string
                            [(KStr "imgsz", VInt 320); (KStr "batch", VInt 16)])
  = None.
Proof.
  destruct (model_args_lookup [(KStr "imgsz", VInt 640); (KStr "epochs", VInt 100)]
              ["imgsz"; "batch"]%string
              [(KStr "imgsz", VInt 320); (KStr "batch", VInt 16)]) as [Hk _].
  - apply (bool_decide_unpack _). vm_compute. exact I.
  - split; rewrite Hk; reflexivity.
Defined.
